(** * AtomVM: the State256 virtual machine of [atomvm.py]

    A shallow embedding of [packages/atomic-state-tree/atomvm.py]: the
    canonical path codec ([AtomPath]), the VM state ([VMState]) and the
    operations of [AtomVM] on it, followed by the properties the
    specification states about them.

    Conventions of the embedding.
    - A Python [str] is a [string]; a non-ASCII character such as the
      sentinel "Ø" is the sequence of its UTF-8 bytes.  The only character
      the program inspects is the ASCII dot, so nothing depends on this.
    - A value ([Union[str, int, float]]) is a [Value]: text, an unbounded
      integer ([Z]) or a binary64 float ([PrimFloat.float]).
    - The dictionary [leaves] is a [gmap string Value]; the register banks
      and the stack are lists, the top of the stack being the last element,
      as [list.append] and [list.pop] have it.
    - Methods that mutate [self.state] take the state and return the new
      one.  An index out of range raises [IndexError] in Python; a method
      that indexes a list returns a [result]. *)

From Stdlib Require Import ZArith Ascii PrimFloat.
From stdpp Require Import base strings pretty list gmap fin_maps.

(** ** Values *)

Inductive Value : Type :=
| VStr (s : string)
| VInt (n : Z)
| VFloat (x : float).

(** The sentinel of an unset leaf or register, the Python literal ["Ø"]. *)
Definition EMPTY : Value := VStr "Ø".

(** [value != ""]: an integer or a float never equals a string. *)
Definition is_empty_str (value : Value) : bool :=
  match value with
  | VStr "" => true
  | _ => false
  end.

(** ** Results of methods that index a list *)

Inductive result (A : Type) : Type :=
| Return (a : A)
| RaiseIndexError
| OutOfFuel.
Arguments Return {A} a.
Arguments RaiseIndexError {A}.
Arguments OutOfFuel {A}.

Definition bind {A B : Type} (r : result A) (k : A → result B) : result B :=
  match r with
  | Return a => k a
  | RaiseIndexError => RaiseIndexError
  | OutOfFuel => OutOfFuel
  end.

(** ** Strings: [str.split] with a one-character separator *)

(** [s.split(sep)]: the maximal separator-free pieces of [s], in order; never
    the empty list ([''.split('.') == ['']]). *)
Fixpoint split (sep : ascii) (s : string) : list string :=
  match s with
  | EmptyString => [EmptyString]
  | String c rest =>
      if Ascii.eqb c sep then EmptyString :: split sep rest
      else match split sep rest with
           | piece :: pieces => String c piece :: pieces
           | [] => [String c EmptyString]
           end
  end.

(** [sep.join(pieces)]. *)
Fixpoint join (sep : string) (pieces : list string) : string :=
  match pieces with
  | [] => ""
  | [piece] => piece
  | piece :: rest => piece +:+ sep +:+ join sep rest
  end.

(** The string holds no occurrence of the character. *)
Fixpoint free_of (sep : ascii) (s : string) : bool :=
  match s with
  | EmptyString => true
  | String c rest => negb (Ascii.eqb c sep) && free_of sep rest
  end.

Definition DOT : ascii := "."%char.

(** ** AtomPath *)

Record AtomPath : Type := mkAtomPath {
  frame : string;
  context : string;
  block : string;
  record : string;
  closure : string;
  logic : string;
  relation : string;
  atom : string
}.

(** [AtomPath.from_string]: [None] is the method's failure result. *)
Definition from_string (path_str : string) : option AtomPath :=
  let parts := split DOT path_str in
  if negb (length parts =? 9) || negb (String.eqb (nth 0 parts "") "State")
  then None
  else Some {| frame := nth 1 parts "";
               context := nth 2 parts "";
               block := nth 3 parts "";
               record := nth 4 parts "";
               closure := nth 5 parts "";
               logic := nth 6 parts "";
               relation := nth 7 parts "";
               atom := nth 8 parts "" |}.

(** [AtomPath.to_string]: the f-string of the method. *)
Definition to_string (p : AtomPath) : string :=
  "State." +:+ frame p +:+ "." +:+ context p +:+ "." +:+ block p +:+ "."
  +:+ record p +:+ "." +:+ closure p +:+ "." +:+ logic p +:+ "."
  +:+ relation p +:+ "." +:+ atom p.

(** [x in {...}] for a set of string literals. *)
Definition mem (x : string) (domain : list string) : bool :=
  existsb (String.eqb x) domain.

Definition valid_frames : list string := ["FrameA"; "FrameB"].
Definition valid_contexts : list string := ["Local"; "Remote"; "Proposed"; "Canonical"].
Definition valid_blocks : list string := ["Block1"; "Block2"].
Definition valid_records : list string := ["Record1"; "Record2"].
Definition valid_closures : list string := ["Closure1"; "Closure2"].
Definition valid_logics : list string := ["Logic1"; "Logic2"].
Definition valid_relations : list string := ["Relation1"; "Relation2"].
Definition valid_atoms : list string := ["L"; "R"].

(** [AtomPath.validate]. *)
Definition validate (p : AtomPath) : bool :=
  mem (frame p) valid_frames &&
  mem (context p) valid_contexts &&
  mem (block p) valid_blocks &&
  mem (record p) valid_records &&
  mem (closure p) valid_closures &&
  mem (logic p) valid_logics &&
  mem (relation p) valid_relations &&
  mem (atom p) valid_atoms.

(** [not atom_path or not atom_path.validate()], the guard of [set_leaf] and
    [get_leaf]: a dataclass instance is always truthy, so [not atom_path]
    holds exactly for [None]. *)
Definition path_rejected (path : string) : bool :=
  match from_string path with
  | None => true
  | Some atom_path => negb (validate atom_path)
  end.

(** Every segment of the path is free of dots. *)
Definition dotless (p : AtomPath) : bool :=
  free_of DOT (frame p) && free_of DOT (context p) && free_of DOT (block p) &&
  free_of DOT (record p) && free_of DOT (closure p) && free_of DOT (logic p) &&
  free_of DOT (relation p) && free_of DOT (atom p).

(** The nine segments a path is written with. *)
Definition segments (p : AtomPath) : list string :=
  ["State"; frame p; context p; block p; record p; closure p; logic p;
   relation p; atom p].

(** ** VMState *)

Record VMState : Type := mkVMState {
  logic4 : list Value;
  record16 : list Value;
  context64 : list Value;
  state256 : list Value;
  stack : list Value;
  leaves : gmap string Value;
  pc : Z
}.

(** [VMState()]: the default factories of the dataclass. *)
Definition initial_state : VMState :=
  {| logic4 := replicate 4 EMPTY;
     record16 := replicate 16 EMPTY;
     context64 := replicate 64 EMPTY;
     state256 := replicate 256 EMPTY;
     stack := [];
     leaves := ∅;
     pc := 0 |}.

(** Assignments to one attribute of [self.state]. *)
Definition with_logic4 (st : VMState) (bank : list Value) : VMState :=
  mkVMState bank (record16 st) (context64 st) (state256 st) (stack st) (leaves st) (pc st).
Definition with_record16 (st : VMState) (bank : list Value) : VMState :=
  mkVMState (logic4 st) bank (context64 st) (state256 st) (stack st) (leaves st) (pc st).
Definition with_context64 (st : VMState) (bank : list Value) : VMState :=
  mkVMState (logic4 st) (record16 st) bank (state256 st) (stack st) (leaves st) (pc st).
Definition with_state256 (st : VMState) (bank : list Value) : VMState :=
  mkVMState (logic4 st) (record16 st) (context64 st) bank (stack st) (leaves st) (pc st).
Definition with_stack (st : VMState) (s : list Value) : VMState :=
  mkVMState (logic4 st) (record16 st) (context64 st) (state256 st) s (leaves st) (pc st).
Definition with_leaves (st : VMState) (m : gmap string Value) : VMState :=
  mkVMState (logic4 st) (record16 st) (context64 st) (state256 st) (stack st) m (pc st).

(** ** Python lists: indexing and ranges *)

#[global] Instance result_ret : MRet result := @Return.
#[global] Instance result_bind : MBind result := λ A B k r, bind r k.

Definition len {A : Type} (l : list A) : Z := Z.of_nat (length l).

(** [l[i]]: a negative index counts from the end; out of range raises. *)
Definition getitem (l : list Value) (i : Z) : result Value :=
  let j := if (i <? 0)%Z then (len l + i)%Z else i in
  if (j <? 0)%Z then RaiseIndexError
  else match l !! Z.to_nat j with
       | Some v => Return v
       | None => RaiseIndexError
       end.

(** [l[i] = v], with the same index rule; the list never grows. *)
Definition setitem (l : list Value) (i : Z) (v : Value) : result (list Value) :=
  let j := if (i <? 0)%Z then (len l + i)%Z else i in
  if (j <? 0)%Z || (len l <=? j)%Z then RaiseIndexError
  else Return (<[Z.to_nat j := v]> l).

(** [range(n)]. *)
Definition range (n : nat) : list nat := seq 0 n.

(** [range(start, stop, step)] for a positive [step]. *)
Definition range3 (start stop step : nat) : list nat :=
  (λ k, start + k * step) <$> seq 0 ((stop - start + (step - 1)) / step).

(** ** AtomVM *)

Section AtomVM.

(** [repr] of a float, which an f-string writes for it: the shortest decimal
    that reads back as the same binary64.  It is taken as given. *)
Variable float_repr : float → string.

(** [_init_domains]: the attributes are set once and never assigned again. *)
Definition frames : list string := ["FrameA"; "FrameB"].
Definition contexts : list string := ["Local"; "Remote"; "Proposed"; "Canonical"].
Definition blocks : list string := ["Block1"; "Block2"].
Definition records : list string := ["Record1"; "Record2"].
Definition closures : list string := ["Closure1"; "Closure2"].
Definition logics : list string := ["Logic1"; "Logic2"].
Definition relations : list string := ["Relation1"; "Relation2"].
Definition atoms : list string := ["L"; "R"].

(** The innermost body of [zero_state]: one write and one append. *)
Definition zero_body (acc : gmap string Value * list string) (path : string)
  : gmap string Value * list string :=
  (<[path := EMPTY]> acc.1, acc.2 ++ [path]).

(** The eight nested [for] loops of [zero_state], running [body] on the
    path of each round. *)
Definition zero_loops {A : Type} (body : A → string → A) (acc : A) : A :=
  foldl (λ acc frame,
  foldl (λ acc context,
  foldl (λ acc block,
  foldl (λ acc record,
  foldl (λ acc closure,
  foldl (λ acc logic,
  foldl (λ acc relation,
  foldl (λ acc atom,
    body acc
      ("State." +:+ frame +:+ "." +:+ context +:+ "." +:+ block +:+ "."
       +:+ record +:+ "." +:+ closure +:+ "." +:+ logic +:+ "."
       +:+ relation +:+ "." +:+ atom))
    acc atoms) acc relations) acc logics) acc closures) acc records)
    acc blocks) acc contexts) acc frames.

(** [zero_state]: the loops thread the dictionary and the list [paths]; the
    result is the new state and the returned list. *)
Definition zero_state (st : VMState) : VMState * list string :=
  let acc := zero_loops zero_body (leaves st, []) in
  (with_leaves st acc.1, acc.2).

(** The line [set_leaf] and [get_leaf] print to [sys.stderr]. *)
Definition invalid_path_line (path : string) : string :=
  "ERROR: Invalid path: " +:+ path.

(** [set_leaf]: the new state, the lines printed to stderr, the result. *)
Definition set_leaf (st : VMState) (path : string) (value : Value)
  : VMState * list string * bool :=
  if path_rejected path then (st, [invalid_path_line path], false)
  else (with_leaves st
          (<[path := if is_empty_str value then EMPTY else value]> (leaves st)),
        [], true).

(** [get_leaf]: the state (never assigned to), the lines printed to stderr,
    and the result, [None] being Python's [None]. *)
Definition get_leaf (st : VMState) (path : string)
  : VMState * list string * option Value :=
  if path_rejected path then (st, [invalid_path_line path], None)
  else (st, [], Some (default EMPTY (leaves st !! path))).

(** One round of [bank[start + i] = values[i]]. *)
Definition store_step (values : list Value) (start : Z)
    (r : result (list Value)) (i : nat) : result (list Value) :=
  bank ← r;
  v ← getitem values (Z.of_nat i);
  setitem bank (start + Z.of_nat i) v.

(** [for i in range(n): bank[start + i] = values[i]]. *)
Definition store_loop (bank values : list Value) (start : Z) (n : nat)
  : result (list Value) :=
  foldl (store_step values start) (Return bank) (range n).

(** [load_to_logic4]: the loop writes at [i] itself, offset 0. *)
Definition load_to_logic4 (st : VMState) (values : list Value) : result VMState :=
  bank ← store_loop (logic4 st) values 0 (Nat.min 4 (length values));
  Return (with_logic4 st bank).

(** [load_to_record16]. *)
Definition load_to_record16 (st : VMState) (values : list Value) : result VMState :=
  bank ← store_loop (record16 st) values 0 (Nat.min 16 (length values));
  Return (with_record16 st bank).

(** [load_to_context64]. *)
Definition load_to_context64 (st : VMState) (batch : Z) (values : list Value)
  : result VMState :=
  if (0 <=? batch)%Z && (batch <? 4)%Z then
    let start := (batch * 16)%Z in
    bank ← store_loop (context64 st) values start (Nat.min 16 (length values));
    Return (with_context64 st bank)
  else Return st.

(** [load_to_state256]. *)
Definition load_to_state256 (st : VMState) (batch : Z) (values : list Value)
  : result VMState :=
  if (0 <=? batch)%Z && (batch <? 16)%Z then
    let start := (batch * 16)%Z in
    bank ← store_loop (state256 st) values start (Nat.min 16 (length values));
    Return (with_state256 st bank)
  else Return st.

(** [push_stack]. *)
Definition push_stack (st : VMState) (value : Value) : VMState :=
  with_stack st (stack st ++ [value]).

(** [pop_stack]: [None] is Python's [None], returned for an empty stack. *)
Definition pop_stack (st : VMState) : VMState * option Value :=
  match stack st with
  | [] => (st, None)
  | _ :: _ => (with_stack st (removelast (stack st)), last (stack st))
  end.

(** [str(v)], which an f-string field with no format specification writes. *)
Definition str (v : Value) : string :=
  match v with
  | VStr s => s
  | VInt n => pretty n
  | VFloat x => float_repr x
  end.

(** [pair]. *)
Definition pair (a b : Value) : string :=
  "(" +:+ str a +:+ " . " +:+ str b +:+ ")".

(** One round of the [for] loop of [build_tree]. *)
Definition level_step (current : list Value)
    (r : result (list Value)) (i : nat) : result (list Value) :=
  next_level ← r;
  if (Z.of_nat i + 1 <? len current)%Z then
    x ← getitem current (Z.of_nat i);
    y ← getitem current (Z.of_nat i + 1);
    Return (next_level ++ [VStr (pair x y)])
  else
    x ← getitem current (Z.of_nat i);
    Return (next_level ++ [x]).

(** The body of the [while] loop: [next_level] from [current]. *)
Definition level_pass (current : list Value) : result (list Value) :=
  foldl (level_step current) (Return []) (range3 0 (length current) 2).

(** [while len(current) > 1]: [fuel] bounds the number of rounds.  The
    counter [level] is written and never read; it is left out. *)
Fixpoint while_loop (fuel : nat) (current : list Value) : result (list Value) :=
  if (1 <? len current)%Z then
    match fuel with
    | O => OutOfFuel
    | S fuel' => next_level ← level_pass current; while_loop fuel' next_level
    end
  else Return current.

(** [build_tree] with a bound on the rounds of its loop. *)
Definition build_tree_fuel (fuel : nat) (atoms : list Value) : result Value :=
  match atoms with
  | [] => Return EMPTY
  | _ :: _ =>
      current ← while_loop fuel atoms;
      match current with
      | v :: _ => Return v
      | [] => Return EMPTY
      end
  end.

(** [build_tree]: every round shortens a list of two or more elements, so
    as many rounds as the list is long are enough (see [while_loop_total]). *)
Definition build_tree (atoms : list Value) : result Value :=
  build_tree_fuel (length atoms) atoms.

(** ** The tree folder as the specification words it *)

(** The value [pair] returns. *)
Definition paired (a b : Value) : Value := VStr (pair a b).

(** One halving: consecutive pairs from the left are replaced by their
    [pair]; the unpaired last element of an odd-length level is kept, at the
    end of the next level. *)
Fixpoint halve (l : list Value) : list Value :=
  match l with
  | x :: y :: rest => VStr (pair x y) :: halve rest
  | _ => l
  end.

(** [folds_to l v]: halving [l] until exactly one element remains leaves
    [v]; the empty sequence folds to the sentinel. *)
Inductive folds_to : list Value → Value → Prop :=
| folds_empty : folds_to [] EMPTY
| folds_single v : folds_to [v] v
| folds_halve l v : 1 < length l → folds_to (halve l) v → folds_to l v.

(** ** Commands: the core operations as steps on the state *)

Inductive Op : Type :=
| OpZeroState
| OpSetLeaf (path : string) (value : Value)
| OpGetLeaf (path : string)
| OpLoadLogic4 (values : list Value)
| OpLoadRecord16 (values : list Value)
| OpLoadContext64 (batch : Z) (values : list Value)
| OpLoadState256 (batch : Z) (values : list Value)
| OpPushStack (value : Value)
| OpPopStack
| OpPair (a b : Value)
| OpBuildTree (atoms : list Value).

(** The state an operation leaves, whatever it returns or prints. *)
Definition exec (st : VMState) (op : Op) : result VMState :=
  match op with
  | OpZeroState => Return (zero_state st).1
  | OpSetLeaf path value => Return (set_leaf st path value).1.1
  | OpGetLeaf path => Return (get_leaf st path).1.1
  | OpLoadLogic4 values => load_to_logic4 st values
  | OpLoadRecord16 values => load_to_record16 st values
  | OpLoadContext64 batch values => load_to_context64 st batch values
  | OpLoadState256 batch values => load_to_state256 st batch values
  | OpPushStack value => Return (push_stack st value)
  | OpPopStack => Return (pop_stack st).1
  | OpPair a b => let _ := pair a b in Return st
  | OpBuildTree atoms => _ ← build_tree atoms; Return st
  end.

(** The states a VM goes through, from [AtomVM()] on. *)
Inductive reachable : VMState → Prop :=
| reachable_init : reachable initial_state
| reachable_step st op st' :
    reachable st → exec st op = Return st' → reachable st'.

End AtomVM.

(** A stand-in for [repr] where no float is written. *)
Definition repr_unused : float → string := λ _, "".

(** ** The key space and the invariant of the state *)

(** The Cartesian product of the eight domains, the first the outermost,
    each tuple written as its canonical path. *)
Definition canonical_paths : list string :=
  f ← valid_frames; c ← valid_contexts; b ← valid_blocks; r ← valid_records;
  cl ← valid_closures; lg ← valid_logics; rl ← valid_relations;
  a ← valid_atoms; [to_string (mkAtomPath f c b r cl lg rl a)].

(** The position of a tuple of domain indices in the nesting order. *)
Definition position (f c b r cl lg rl a : nat) : nat :=
  ((((((f * 4 + c) * 2 + b) * 2 + r) * 2 + cl) * 2 + lg) * 2 + rl) * 2 + a.

(** No string occurs twice in the list. *)
Fixpoint distinct (l : list string) : bool :=
  match l with
  | [] => true
  | x :: rest => negb (mem x rest) && distinct rest
  end.

(** The dictionary after the sentinel is written at each key of the list. *)
Definition zeroed (m : gmap string Value) (keys : list string) : gmap string Value :=
  foldl (λ m key, <[key := EMPTY]> m) m keys.

(** The four register banks have their sizes. *)
Definition banks_sized (st : VMState) : Prop :=
  length (logic4 st) = 4 ∧ length (record16 st) = 16 ∧
  length (context64 st) = 64 ∧ length (state256 st) = 256.

(** Every key of the leaf store is a canonical path. *)
Definition keys_canonical (st : VMState) : Prop :=
  ∀ k, is_Some (leaves st !! k) → k ∈ canonical_paths.

(** [new] is [old] with the first [n] of [values] written from position
    [start] on, every other position as it was, and no change of length. *)
Definition overwritten (old new values : list Value) (start n : nat) : Prop :=
  length new = length old ∧
  (∀ i, i < n → new !! (start + i) = values !! i) ∧
  (∀ j, j < start ∨ start + n ≤ j → new !! j = old !! j).

Definition invariant (st : VMState) : Prop :=
  banks_sized st ∧ keys_canonical st.

(** ** Sample inputs and the value a write stores *)

(** A path with a dot inside a segment: the dataclass accepts any strings. *)
Definition dotted_path : AtomPath :=
  mkAtomPath "Frame.A" "Local" "Block1" "Record1" "Closure1" "Logic1" "Relation1" "L".

(** A path that parses and lies outside the domains. *)
Definition foreign_path : AtomPath :=
  mkAtomPath "FrameZ" "" "Block1" "Record1" "Closure1" "Logic1" "Relation1" "L".

(** The value [set_leaf] stores for [value]. *)
Definition stored (value : Value) : Value :=
  if is_empty_str value then EMPTY else value.

(** A canonical path. *)
Definition path_L : string :=
  "State.FrameA.Local.Block1.Record1.Closure1.Logic1.Relation1.L".


(** ** Programs over the operations *)

(** A caller's loop [for b in range(batches): load(b, vs[b*16:(b+1)*16])]
    over one of the batched loads, stopping at the first that raises. *)
Definition load_chunks (load : VMState → Z → list Value → result VMState)
    (st : VMState) (vs : list Value) (batches : nat) : result VMState :=
  foldl (λ r b, st ← r; load st (Z.of_nat b) (take 16 (drop (b * 16) vs)))
        (Return st) (seq 0 batches).

(** [for v in values: push_stack(v)]. *)
Definition push_all (st : VMState) (values : list Value) : VMState :=
  foldl push_stack st values.

(** [n] calls of [pop_stack], with their results in the order of the calls. *)
Fixpoint pop_n (n : nat) (st : VMState) : VMState * list (option Value) :=
  match n with
  | O => (st, [])
  | S n => let (st1, r) := pop_stack st in
           let (st2, rs) := pop_n n st1 in (st2, r :: rs)
  end.

(** The part of the state an operation may write. *)
Definition writes_logic4 (op : Op) : bool :=
  match op with OpLoadLogic4 _ => true | _ => false end.
Definition writes_record16 (op : Op) : bool :=
  match op with OpLoadRecord16 _ => true | _ => false end.
Definition writes_context64 (op : Op) : bool :=
  match op with OpLoadContext64 _ _ => true | _ => false end.
Definition writes_state256 (op : Op) : bool :=
  match op with OpLoadState256 _ _ => true | _ => false end.
Definition writes_stack (op : Op) : bool :=
  match op with OpPushStack _ | OpPopStack => true | _ => false end.
Definition writes_leaves (op : Op) : bool :=
  match op with OpZeroState | OpSetLeaf _ _ => true | _ => false end.

(** The length of the text of a value, and five more for the parentheses,
    the dot and the two spaces of the pair that takes it. *)
Definition weight (float_repr : float → string) (v : Value) : nat :=
  String.length (str float_repr v) + 5.

(** * Properties *)

(** ** The definitions compute *)

Example ex_split : split DOT "a..b." = ["a"; ""; "b"; ""].
Proof. reflexivity. Qed.
Example ex_from : from_string "State.FrameA.Local.Block1.Record1.Closure1.Logic1.Relation1.L" = Some (mkAtomPath "FrameA" "Local" "Block1" "Record1" "Closure1" "Logic1" "Relation1" "L").
Proof. reflexivity. Qed.
Example ex_pretty : pretty (-50)%Z = "-50".
Proof. reflexivity. Qed.

(** ** Splitting and joining *)

Section Split.

Variable sep : ascii.

Lemma split_nonempty (s : string) : split sep s ≠ [].
Proof.
  destruct s as [|c s]; simpl; [done|].
  destruct (Ascii.eqb c sep); [done|].
  by destruct (split sep s).
Qed.

Lemma join_cons (d piece : string) (rest : list string) :
  rest ≠ [] → join d (piece :: rest) = piece +:+ d +:+ join d rest.
Proof. by destruct rest. Qed.

(** Joining the pieces with the separator gives the string back. *)
Lemma join_split (s : string) : join (String sep "") (split sep s) = s.
Proof.
  induction s as [|c s IH]; simpl; [done|].
  destruct (Ascii.eqb_spec c sep) as [->|Hne].
  - rewrite join_cons by apply split_nonempty. simpl. by rewrite IH.
  - pose proof (split_nonempty s) as Hs.
    destruct (split sep s) as [|piece pieces]; [done|].
    destruct pieces as [|piece' pieces]; simpl in *; by rewrite <- IH.
Qed.

(** The pieces hold no separator. *)
Lemma split_pieces_free (s : string) :
  Forall (λ piece, free_of sep piece = true) (split sep s).
Proof.
  induction s as [|c s IH]; simpl; [by repeat constructor|].
  destruct (Ascii.eqb c sep) eqn:Hc; [by constructor|].
  destruct (split sep s) as [|piece pieces]; simpl.
  - repeat constructor. simpl. by rewrite Hc.
  - inversion_clear IH as [|? ? Hp Hps]. constructor; [|done].
    simpl. by rewrite Hc, Hp.
Qed.

(** A piece followed by the separator is split off. *)
Lemma split_app (piece rest : string) :
  free_of sep piece = true →
  split sep (piece +:+ String sep rest) = piece :: split sep rest.
Proof.
  induction piece as [|c piece IH]; simpl; intros Hfree.
  - by rewrite Ascii.eqb_refl.
  - apply andb_true_iff in Hfree as [Hc Hfree].
    apply negb_true_iff in Hc. rewrite Hc, IH by done. done.
Qed.

Lemma split_free (s : string) : free_of sep s = true → split sep s = [s].
Proof.
  induction s as [|c s IH]; simpl; intros Hfree; [done|].
  apply andb_true_iff in Hfree as [Hc Hfree].
  apply negb_true_iff in Hc. rewrite Hc, IH by done. done.
Qed.

(** Splitting undoes joining when no piece holds the separator. *)
Lemma split_join (pieces : list string) :
  pieces ≠ [] → Forall (λ piece, free_of sep piece = true) pieces →
  split sep (join (String sep "") pieces) = pieces.
Proof.
  induction pieces as [|piece rest IH]; [done|]. intros _ Hall.
  inversion_clear Hall as [|? ? Hp Hrest].
  destruct rest as [|piece' rest].
  - simpl. by apply split_free.
  - rewrite join_cons by done. change (String sep "" +:+ ?x) with (String sep x).
    rewrite split_app by done. f_equal. by apply IH.
Qed.

End Split.

(** ** The path codec *)

Lemma to_string_join (p : AtomPath) : to_string p = join "." (segments p).
Proof. reflexivity. Qed.

Lemma free_of_State : free_of DOT "State" = true.
Proof. reflexivity. Qed.

Lemma dotless_segments (p : AtomPath) :
  dotless p = true ↔ Forall (λ piece, free_of DOT piece = true) (segments p).
Proof.
  unfold dotless, segments. rewrite !andb_true_iff, !Forall_cons, Forall_nil.
  pose proof free_of_State. tauto.
Qed.

(** A text parses to [p] exactly when its pieces are the segments of [p]. *)
Lemma from_string_Some (s : string) (p : AtomPath) :
  from_string s = Some p ↔ split DOT s = segments p.
Proof.
  unfold from_string, segments. split.
  - destruct (split DOT s) as [|p0 [|p1 [|p2 [|p3 [|p4 [|p5 [|p6 [|p7 [|p8 [|p9 l]]]]]]]]]];
      simpl; try done.
    destruct (String.eqb_spec p0 "State") as [->|]; simpl; [|done].
    by intros [= <-].
  - intros ->. by destruct p.
Qed.

Lemma from_string_None (s : string) :
  from_string s = None ↔
  ¬ (length (split DOT s) = 9 ∧ nth 0 (split DOT s) "" = "State").
Proof.
  unfold from_string.
  destruct (Nat.eqb_spec (length (split DOT s)) 9) as [Hlen|Hlen]; simpl.
  - destruct (String.eqb_spec (nth 0 (split DOT s) "") "State") as [Hhd|Hhd]; simpl.
    + split; [done|]. intros []; done.
    + split; [|done]. intros _ [_ ?]; done.
  - split; [|done]. intros _ [? _]; done.
Qed.

(** Parsing the written form of a path whose segments hold no dot. *)
Lemma from_string_to_string (p : AtomPath) :
  dotless p = true → from_string (to_string p) = Some p.
Proof.
  intros Hp. apply from_string_Some. rewrite to_string_join.
  apply (split_join DOT); [done|]. by apply dotless_segments.
Qed.

(** Writing what a text parsed to gives the text back. *)
Lemma to_string_from_string (s : string) (p : AtomPath) :
  from_string s = Some p → to_string p = s.
Proof.
  intros Hs%from_string_Some. rewrite to_string_join, <- Hs.
  apply (join_split DOT).
Qed.

(** What parses has segments free of dots. *)
Lemma from_string_dotless (s : string) (p : AtomPath) :
  from_string s = Some p → dotless p = true.
Proof.
  intros Hs%from_string_Some. apply dotless_segments. rewrite <- Hs.
  apply split_pieces_free.
Qed.

(** C1, as stated, fails: the written form of [dotted_path] has ten pieces,
    so parsing it fails instead of giving the path back. *)
Lemma round_trip_dotted_fails :
  from_string (to_string dotted_path) = None ∧
  from_string (to_string dotted_path) ≠ Some dotted_path.
Proof. split; [reflexivity | discriminate]. Qed.

(** C1 (amended): [from_string (to_string p)] gives [p] back exactly for the
    paths [p] whose eight segments hold no dot, in or out of the domains;
    and every text that splits into nine pieces of which the first is
    [State] parses to a path whose written form is that text. *)
Theorem path_round_trip :
  (∀ p, from_string (to_string p) = Some p ↔ dotless p = true) ∧
  (∀ s, length (split DOT s) = 9 → nth 0 (split DOT s) "" = "State" →
        ∃ p, from_string s = Some p ∧ to_string p = s).
Proof.
  split.
  - intros p. split; [apply from_string_dotless | apply from_string_to_string].
  - intros s Hlen Hhd.
    destruct (from_string s) as [p|] eqn:Hs.
    + exists p. split; [done|]. by apply to_string_from_string.
    + apply from_string_None in Hs. by destruct Hs.
Qed.

Lemma path_round_trip_witness :
  from_string (to_string foreign_path) = Some foreign_path ∧
  ∃ p, from_string "State.a.b.c.d.e.f.g.h" = Some p ∧
       to_string p = "State.a.b.c.d.e.f.g.h".
Proof.
  split.
  - apply (proj1 path_round_trip foreign_path). reflexivity.
  - apply (proj2 path_round_trip "State.a.b.c.d.e.f.g.h"); reflexivity.
Defined.

(** C8: [from_string] fails exactly when the text does not split at its dots
    into nine pieces of which the first is [State]; it succeeds with [p]
    exactly when the pieces are [State] and the eight segments of [p] in the
    order frame, context, block, record, closure, logic, relation, atom;
    the pieces are the dot-free stretches of the text; and a text whose
    segments lie outside the domains parses all the same. *)
Theorem from_string_spec :
  (∀ s, from_string s = None ↔
        ¬ (length (split DOT s) = 9 ∧ nth 0 (split DOT s) "" = "State")) ∧
  (∀ s p, from_string s = Some p ↔
          split DOT s = ["State"; frame p; context p; block p; record p;
                         closure p; logic p; relation p; atom p]) ∧
  (∀ s, join "." (split DOT s) = s ∧
        Forall (λ piece, free_of DOT piece = true) (split DOT s)) ∧
  (from_string "State.FrameZ..Block1.Record1.Closure1.Logic1.Relation1.L"
     = Some foreign_path ∧ validate foreign_path = false).
Proof.
  split; [apply from_string_None|].
  split; [apply from_string_Some|].
  split; [|by split].
  intros s. split; [apply (join_split DOT) | apply split_pieces_free].
Qed.

(** ** The stack *)

Lemma removelast_snoc {A : Type} (l : list A) (x : A) : removelast (l ++ [x]) = l.
Proof. apply removelast_last. Qed.

(** C9: a push followed by a pop returns the pushed value and the state the
    push started from; a pop on an empty stack returns [None] and leaves the
    state as it is. *)
Theorem push_pop_stack :
  (∀ st x, pop_stack (push_stack st x) = (st, Some x)) ∧
  (∀ st, stack st = [] → pop_stack st = (st, None)).
Proof.
  split.
  - intros [l4 r16 c64 s256 stk lv pc0] x. unfold pop_stack, push_stack, with_stack.
    simpl. destruct (stk ++ [x]) as [|v l] eqn:Heq.
    { by destruct stk. }
    rewrite <- Heq, removelast_snoc, last_snoc. done.
  - intros st Hst. unfold pop_stack. by rewrite Hst.
Qed.

Lemma push_pop_stack_witness :
  pop_stack (push_stack initial_state (VInt 7)) = (initial_state, Some (VInt 7)) ∧
  pop_stack initial_state = (initial_state, None).
Proof.
  split.
  - apply (proj1 push_pop_stack).
  - apply (proj2 push_pop_stack). reflexivity.
Defined.

(** ** The leaf store *)

Lemma is_empty_str_spec (v : Value) : is_empty_str v = true ↔ v = VStr "".
Proof.
  destruct v as [[|c s]| |]; simpl; split; intros H; congruence.
Qed.

(** The guard of [set_leaf] and [get_leaf] lets a text through exactly when
    it parses and what it parses to validates. *)
Lemma path_rejected_false (path : string) :
  path_rejected path = false ↔
  ∃ p, from_string path = Some p ∧ validate p = true.
Proof.
  unfold path_rejected. destruct (from_string path) as [p|]; split.
  - intros H%negb_false_iff. by exists p.
  - intros (q & [= <-] & ->). done.
  - done.
  - by intros (q & ? & _).
Qed.

Lemma path_rejected_true (path : string) :
  path_rejected path = true ↔
  from_string path = None ∨ ∃ p, from_string path = Some p ∧ validate p = false.
Proof.
  unfold path_rejected. destruct (from_string path) as [p|]; split.
  - intros H%negb_true_iff. right. by exists p.
  - intros [?|(q & [= <-] & ->)]; done.
  - by left.
  - done.
Qed.

(** C4: for a text that parses and validates, [set_leaf] succeeds, prints
    nothing, and [get_leaf] on the new state returns the value set, or the
    sentinel when that value was the empty string; for a text that does not
    parse, or parses and does not validate, [set_leaf] returns [False],
    [get_leaf] returns [None], each prints the error line, and the whole
    state is what it was. *)
Theorem set_get_leaf (st : VMState) (path : string) (v : Value) :
  (∀ p, from_string path = Some p → validate p = true →
     ∃ st', set_leaf st path v = (st', [], true) ∧
            get_leaf st' path = (st', [], Some (stored v)) ∧
            (v = VStr "" → stored v = EMPTY) ∧
            (v ≠ VStr "" → stored v = v)) ∧
  (from_string path = None ∨
   (∃ p, from_string path = Some p ∧ validate p = false) →
     set_leaf st path v = (st, [invalid_path_line path], false) ∧
     get_leaf st path = (st, [invalid_path_line path], None)).
Proof.
  split.
  - intros p Hp Hv.
    assert (path_rejected path = false) as Hok.
    { apply path_rejected_false. by exists p. }
    unfold set_leaf, get_leaf. rewrite Hok.
    eexists. split; [reflexivity|]. simpl.
    rewrite lookup_insert_eq. simpl. fold (stored v). split; [done|].
    unfold stored. split.
    + by intros ->.
    + intros Hne. destruct (is_empty_str v) eqn:He; [|done].
      by apply is_empty_str_spec in He.
  - intros Hbad%path_rejected_true. unfold set_leaf, get_leaf.
    by rewrite Hbad.
Qed.

Lemma set_get_leaf_witness :
  (∃ st', set_leaf initial_state path_L (VStr "") = (st', [], true) ∧
          get_leaf st' path_L = (st', [], Some (stored (VStr ""))) ∧
          (VStr "" = VStr "" → stored (VStr "") = EMPTY) ∧
          (VStr "" ≠ VStr "" → stored (VStr "") = VStr "")) ∧
  (set_leaf initial_state "State.FrameA" (VInt 1)
     = (initial_state, [invalid_path_line "State.FrameA"], false) ∧
   get_leaf initial_state "State.FrameA"
     = (initial_state, [invalid_path_line "State.FrameA"], None)).
Proof.
  split.
  - eapply (proj1 (set_get_leaf initial_state path_L (VStr ""))); reflexivity.
  - apply (proj2 (set_get_leaf initial_state "State.FrameA" (VInt 1))).
    left. reflexivity.
Defined.

(** ** The register banks *)

Lemma bind_Return {A B : Type} (a : A) (k : A → result B) : (Return a ≫= k) = k a.
Proof. reflexivity. Qed.

(** Indexing inside the list neither wraps nor raises. *)
Lemma getitem_nat (l : list Value) (i : nat) (v : Value) :
  l !! i = Some v → getitem l (Z.of_nat i) = Return v.
Proof.
  intros Hl. unfold getitem. cbv zeta.
  destruct (Z.ltb_spec (Z.of_nat i) 0) as [|_]; [lia|].
  destruct (Z.ltb_spec (Z.of_nat i) 0) as [|_]; [lia|].
  by rewrite Nat2Z.id, Hl.
Qed.

Lemma setitem_nat (l : list Value) (j : Z) (v : Value) :
  (0 ≤ j)%Z → Z.to_nat j < length l →
  setitem l j v = Return (<[Z.to_nat j := v]> l).
Proof.
  intros Hj Hlt. unfold setitem, len. cbv zeta.
  destruct (Z.ltb_spec j 0) as [|_]; [lia|].
  destruct (Z.ltb_spec j 0) as [|_]; [lia|].
  destruct (Z.leb_spec (Z.of_nat (length l)) j) as [|_]; [lia|]. done.
Qed.

(** The store loop, when it stays inside the bank and the values: the bank
    before [start], then the values written, then the rest of the bank. *)
Lemma store_loop_spec (bank values : list Value) (start : Z) (n : nat) :
  (0 ≤ start)%Z → Z.to_nat start + n ≤ length bank → n ≤ length values →
  store_loop bank values start n
  = Return (take (Z.to_nat start) bank ++ take n values
            ++ drop (Z.to_nat start + n) bank).
Proof.
  intros Hs. induction n as [|n IH]; intros Hb Hv.
  - unfold store_loop. simpl. by rewrite Nat.add_0_r, take_drop.
  - unfold store_loop, range in *. rewrite seq_S, foldl_app. simpl.
    rewrite IH by lia. unfold store_step. rewrite bind_Return.
    destruct (lookup_lt_is_Some_2 values n) as [v Hn]; [lia|].
    destruct (lookup_lt_is_Some_2 bank (Z.to_nat start + n)) as [old Hold]; [lia|].
    rewrite (getitem_nat _ _ _ Hn), bind_Return.
    assert (length (take (Z.to_nat start) bank) = Z.to_nat start) as L1
      by (rewrite length_take; lia).
    assert (length (take n values) = n) as L2 by (rewrite length_take; lia).
    rewrite setitem_nat.
    2: lia.
    2: { rewrite !length_app, L1, L2, length_drop. lia. }
    f_equal.
    replace (Z.to_nat (start + Z.of_nat n)) with (Z.to_nat start + n) by lia.
    rewrite (take_S_r _ _ _ Hn), (drop_S _ _ _ Hold).
    rewrite insert_app_r_alt by lia. rewrite L1.
    rewrite insert_app_r_alt by lia. rewrite L2.
    replace (Z.to_nat start + n - Z.to_nat start - n) with 0 by lia. simpl.
    rewrite <- (assoc_L (++)). by rewrite Nat.add_succ_r.
Qed.

Lemma overwritten_take_drop (bank values : list Value) (s n : nat) :
  s + n ≤ length bank → n ≤ length values →
  overwritten bank (take s bank ++ take n values ++ drop (s + n) bank) values s n.
Proof.
  intros Hb Hv.
  assert (length (take s bank) = s) as L1 by (rewrite length_take; lia).
  assert (length (take n values) = n) as L2 by (rewrite length_take; lia).
  split; [|split].
  - rewrite !length_app, L1, L2, length_drop. lia.
  - intros i Hi. rewrite lookup_app_r by lia. rewrite L1.
    replace (s + i - s) with i by lia.
    rewrite lookup_app_l by lia. by apply lookup_take_lt.
  - intros j [Hj|Hj].
    + rewrite lookup_app_l by lia. by apply lookup_take_lt.
    + rewrite lookup_app_r by lia. rewrite lookup_app_r by lia.
      rewrite L1, L2, lookup_drop. f_equal. lia.
Qed.

(** The store loop of the four loads: it returns, and the bank it returns
    is the old one overwritten from [start] on. *)
Lemma store_loop_overwritten (bank values : list Value) (start : Z) (n : nat) :
  (0 ≤ start)%Z → Z.to_nat start + n ≤ length bank → n ≤ length values →
  ∃ new, store_loop bank values start n = Return new ∧
         overwritten bank new values (Z.to_nat start) n.
Proof.
  intros Hs Hb Hv. eexists. split; [by apply store_loop_spec|].
  by apply overwritten_take_drop.
Qed.

Lemma initial_banks_sized : banks_sized initial_state.
Proof. repeat split; reflexivity. Qed.

Lemma load_to_logic4_run (st : VMState) (values : list Value) :
  length (logic4 st) = 4 →
  ∃ bank, load_to_logic4 st values = Return (with_logic4 st bank) ∧
          overwritten (logic4 st) bank values 0 (Nat.min 4 (length values)).
Proof.
  intros H4.
  destruct (store_loop_overwritten (logic4 st) values 0
              (Nat.min 4 (length values))) as (bank & Hrun & Hbank);
    [lia | lia | lia |].
  exists bank. unfold load_to_logic4. by rewrite Hrun.
Qed.

Lemma load_to_record16_run (st : VMState) (values : list Value) :
  length (record16 st) = 16 →
  ∃ bank, load_to_record16 st values = Return (with_record16 st bank) ∧
          overwritten (record16 st) bank values 0 (Nat.min 16 (length values)).
Proof.
  intros H16.
  destruct (store_loop_overwritten (record16 st) values 0
              (Nat.min 16 (length values))) as (bank & Hrun & Hbank);
    [lia | lia | lia |].
  exists bank. unfold load_to_record16. by rewrite Hrun.
Qed.

Lemma load_to_context64_skip (st : VMState) (batch : Z) (values : list Value) :
  ¬ (0 ≤ batch < 4)%Z → load_to_context64 st batch values = Return st.
Proof.
  intros Hout. unfold load_to_context64.
  destruct (Z.leb_spec 0 batch), (Z.ltb_spec batch 4); simpl; done || lia.
Qed.

Lemma load_to_context64_run (st : VMState) (batch : Z) (values : list Value) :
  length (context64 st) = 64 → (0 ≤ batch < 4)%Z →
  ∃ bank, load_to_context64 st batch values = Return (with_context64 st bank) ∧
          overwritten (context64 st) bank values
            (Z.to_nat batch * 16) (Nat.min 16 (length values)).
Proof.
  intros H64 Hin. unfold load_to_context64.
  destruct (Z.leb_spec 0 batch), (Z.ltb_spec batch 4); try lia.
  cbn [andb]. cbv zeta.
  destruct (store_loop_overwritten (context64 st) values (batch * 16)
              (Nat.min 16 (length values))) as (bank & Hrun & Hbank);
    [lia | lia | lia |].
  exists bank. rewrite Hrun. split; [done|].
  by replace (Z.to_nat batch * 16) with (Z.to_nat (batch * 16)) by lia.
Qed.

Lemma load_to_state256_skip (st : VMState) (batch : Z) (values : list Value) :
  ¬ (0 ≤ batch < 16)%Z → load_to_state256 st batch values = Return st.
Proof.
  intros Hout. unfold load_to_state256.
  destruct (Z.leb_spec 0 batch), (Z.ltb_spec batch 16); simpl; done || lia.
Qed.

Lemma load_to_state256_run (st : VMState) (batch : Z) (values : list Value) :
  length (state256 st) = 256 → (0 ≤ batch < 16)%Z →
  ∃ bank, load_to_state256 st batch values = Return (with_state256 st bank) ∧
          overwritten (state256 st) bank values
            (Z.to_nat batch * 16) (Nat.min 16 (length values)).
Proof.
  intros H256 Hin. unfold load_to_state256.
  destruct (Z.leb_spec 0 batch), (Z.ltb_spec batch 16); try lia.
  cbn [andb]. cbv zeta.
  destruct (store_loop_overwritten (state256 st) values (batch * 16)
              (Nat.min 16 (length values))) as (bank & Hrun & Hbank);
    [lia | lia | lia |].
  exists bank. rewrite Hrun. split; [done|].
  by replace (Z.to_nat batch * 16) with (Z.to_nat (batch * 16)) by lia.
Qed.

(** C7: on a state whose banks have their sizes, [load_to_logic4] and
    [load_to_record16] return without raising, whatever the number of
    values; the bank holds the first [min(size, len(values))] values at
    positions 0 and up, the positions after them are as before, the values
    in excess are not used, and no other part of the state changes.  Five
    values loaded into [logic4] leave the first four in it. *)
Theorem direct_load (st : VMState) (values : list Value) :
  banks_sized st →
  (∃ bank, load_to_logic4 st values = Return (with_logic4 st bank) ∧
           overwritten (logic4 st) bank values 0 (Nat.min 4 (length values))) ∧
  (∃ bank, load_to_record16 st values = Return (with_record16 st bank) ∧
           overwritten (record16 st) bank values 0 (Nat.min 16 (length values))) ∧
  (∀ a b c d e, values = [a; b; c; d; e] →
     load_to_logic4 st values = Return (with_logic4 st [a; b; c; d])).
Proof.
  intros (H4 & H16 & _ & _). split; [|split].
  - by apply load_to_logic4_run.
  - by apply load_to_record16_run.
  - intros a b c d e ->. unfold load_to_logic4.
    rewrite store_loop_spec by (simpl; lia). simpl.
    by rewrite drop_ge by lia.
Qed.

(** Five values into [logic4]: the first four are stored, the fifth is
    dropped; two values into [record16]: positions 2 and up are as before. *)
Lemma direct_load_witness :
  load_to_logic4 initial_state [VInt 1; VInt 2; VInt 3; VInt 4; VInt 5]
  = Return (with_logic4 initial_state [VInt 1; VInt 2; VInt 3; VInt 4]) ∧
  (∃ bank, load_to_record16 initial_state [VInt 1; VInt 2]
             = Return (with_record16 initial_state bank) ∧
           overwritten (record16 initial_state) bank [VInt 1; VInt 2] 0 2).
Proof.
  split.
  - exact (proj2 (proj2 (direct_load initial_state
                           [VInt 1; VInt 2; VInt 3; VInt 4; VInt 5]
                           initial_banks_sized))
             (VInt 1) (VInt 2) (VInt 3) (VInt 4) (VInt 5) eq_refl).
  - exact (proj1 (proj2 (direct_load initial_state [VInt 1; VInt 2]
                           initial_banks_sized))).
Defined.

(** C6: [load_to_context64] (four batches) and [load_to_state256] (sixteen)
    return the state as it is when the batch index is negative or not below
    the number of batches; otherwise, on a state whose banks have their
    sizes, they return without raising, the bank holds the first
    [min(16, len(values))] values from position [batch * 16] on, every other
    position of the bank is as before, and no other part of the state
    changes. *)
Theorem batched_load (st : VMState) (batch : Z) (values : list Value) :
  banks_sized st →
  (¬ (0 ≤ batch < 4)%Z → load_to_context64 st batch values = Return st) ∧
  ((0 ≤ batch < 4)%Z →
     ∃ bank, load_to_context64 st batch values = Return (with_context64 st bank) ∧
             overwritten (context64 st) bank values
               (Z.to_nat batch * 16) (Nat.min 16 (length values))) ∧
  (¬ (0 ≤ batch < 16)%Z → load_to_state256 st batch values = Return st) ∧
  ((0 ≤ batch < 16)%Z →
     ∃ bank, load_to_state256 st batch values = Return (with_state256 st bank) ∧
             overwritten (state256 st) bank values
               (Z.to_nat batch * 16) (Nat.min 16 (length values))).
Proof.
  intros (_ & _ & H64 & H256). split; [|split; [|split]].
  - apply load_to_context64_skip.
  - by apply load_to_context64_run.
  - apply load_to_state256_skip.
  - by apply load_to_state256_run.
Qed.

(** Sixteen values loaded as batch 2 of [context64] go to positions 32 to
    47, and nothing else changes; batch 5 does not exist. *)
Lemma batched_load_witness :
  (∃ bank, load_to_context64 initial_state 2 (VInt <$> seqZ 0 16)
             = Return (with_context64 initial_state bank) ∧
           overwritten (context64 initial_state) bank (VInt <$> seqZ 0 16) 32 16) ∧
  load_to_context64 initial_state 5 (VInt <$> seqZ 0 16) = Return initial_state.
Proof.
  split.
  - assert (0 ≤ 2 < 4)%Z as Hin by lia.
    exact (proj1 (proj2 (batched_load initial_state 2 (VInt <$> seqZ 0 16)
                           initial_banks_sized)) Hin).
  - apply (proj1 (batched_load initial_state 5 (VInt <$> seqZ 0 16)
                    initial_banks_sized)). lia.
Defined.

(** Batch 5 of [context64] does not exist: the load does nothing. *)
Lemma batch_out_of_range (st : VMState) (values : list Value) :
  load_to_context64 st 5 values = Return st ∧
  load_to_context64 st (-1) values = Return st ∧
  load_to_state256 st 16 values = Return st.
Proof. done. Qed.

(** ** Zero initialisation *)

(** The loops visit the canonical paths, in their order. *)
Lemma zero_loops_foldl {A : Type} (body : A → string → A) (acc : A) :
  zero_loops body acc = foldl body acc canonical_paths.
Proof. reflexivity. Qed.

Lemma canonical_paths_length : length canonical_paths = 512.
Proof. vm_compute. reflexivity. Qed.

Lemma mem_elem_of (x : string) (l : list string) : mem x l = true ↔ x ∈ l.
Proof.
  unfold mem. rewrite existsb_exists. split.
  - intros (y & Hin & ->%String.eqb_eq). by apply list_elem_of_In.
  - intros Hin. exists x. split; [by apply list_elem_of_In | apply String.eqb_refl].
Qed.

Lemma distinct_NoDup (l : list string) : distinct l = true → NoDup l.
Proof.
  induction l as [|x l IH]; simpl; [constructor|].
  intros [Hx Hl]%andb_true_iff. constructor; [|by apply IH].
  intros Hin%mem_elem_of. by rewrite Hin in Hx.
Qed.

Lemma canonical_paths_NoDup : NoDup canonical_paths.
Proof. apply distinct_NoDup. vm_compute. reflexivity. Qed.

Lemma canonical_paths_accepted :
  Forall (λ path, path_rejected path = false) canonical_paths.
Proof.
  apply Forall_forall. intros path Hin.
  assert (forallb (λ path, negb (path_rejected path)) canonical_paths = true)
    as Hall by (vm_compute; reflexivity).
  rewrite forallb_forall in Hall. apply negb_true_iff, Hall.
  by apply list_elem_of_In.
Qed.

(** The innermost body, run along a list of paths: the writes go to the
    dictionary and the paths are appended in order. *)
Lemma foldl_zero_body (keys : list string) (acc : gmap string Value * list string) :
  foldl zero_body acc keys = (zeroed acc.1 keys, acc.2 ++ keys).
Proof.
  revert acc. induction keys as [|key keys IH]; intros acc; simpl.
  - rewrite app_nil_r. by destruct acc.
  - rewrite IH. simpl. by rewrite <- (assoc_L (++)).
Qed.

Lemma zeroed_lookup (keys : list string) (m : gmap string Value) (k : string) :
  zeroed m keys !! k = if decide (k ∈ keys) then Some EMPTY else m !! k.
Proof.
  revert m. induction keys as [|key keys IH]; intros m.
  - unfold zeroed; cbn [foldl].
    destruct (decide (k ∈ [])) as [Hin|_]; [by apply elem_of_nil in Hin | done].
  - change (zeroed m (key :: keys)) with (zeroed (<[key:=EMPTY]> m) keys).
    rewrite IH.
    destruct (decide (k ∈ keys)) as [Hin|Hout],
             (decide (k ∈ key :: keys)) as [Hin'|Hout']; try done.
    + exfalso. apply Hout'. by right.
    + apply elem_of_cons in Hin' as [->|Hin']; [apply lookup_insert_eq | done].
    + apply lookup_insert_ne. intros ->. apply Hout'. by left.
Qed.

Lemma zeroed_twice (keys : list string) (m : gmap string Value) :
  zeroed (zeroed m keys) keys = zeroed m keys.
Proof.
  apply map_eq. intros k. rewrite !zeroed_lookup.
  by destruct (decide (k ∈ keys)).
Qed.

(** [zero_state] in one equation. *)
Lemma zero_state_eq (st : VMState) :
  zero_state st
  = (with_leaves st (zeroed (leaves st) canonical_paths), canonical_paths).
Proof.
  unfold zero_state. by rewrite zero_loops_foldl, foldl_zero_body.
Qed.

(** The canonical paths in the nesting order: the path of the tuple of
    domain indices [f, c, b, r, cl, lg, rl, a] stands at its [position]. *)
Lemma canonical_paths_position (f c b r cl lg rl a : nat)
    (x1 x2 x3 x4 x5 x6 x7 x8 : string) :
  valid_frames !! f = Some x1 → valid_contexts !! c = Some x2 →
  valid_blocks !! b = Some x3 → valid_records !! r = Some x4 →
  valid_closures !! cl = Some x5 → valid_logics !! lg = Some x6 →
  valid_relations !! rl = Some x7 → valid_atoms !! a = Some x8 →
  canonical_paths !! position f c b r cl lg rl a
  = Some (to_string (mkAtomPath x1 x2 x3 x4 x5 x6 x7 x8)).
Proof.
  intros H1 H2 H3 H4 H5 H6 H7 H8.
  destruct f as [|[|?]]; try discriminate H1; injection H1 as <-;
  (destruct c as [|[|[|[|?]]]]; try discriminate H2; injection H2 as <-);
  (destruct b as [|[|?]]; try discriminate H3; injection H3 as <-);
  (destruct r as [|[|?]]; try discriminate H4; injection H4 as <-);
  (destruct cl as [|[|?]]; try discriminate H5; injection H5 as <-);
  (destruct lg as [|[|?]]; try discriminate H6; injection H6 as <-);
  (destruct rl as [|[|?]]; try discriminate H7; injection H7 as <-);
  (destruct a as [|[|?]]; try discriminate H8; injection H8 as <-);
  vm_compute; reflexivity.
Qed.

(** C5, as stated, fails on the count: the domains have 2, 4, 2, 2, 2, 2, 2
    and 2 members, and [zero_state] returns 512 paths, not 256. *)
Lemma zero_state_returns_512 :
  length (zero_state initial_state).2 = 512 ∧
  length (zero_state initial_state).2 ≠ 256.
Proof. rewrite zero_state_eq. cbn [snd]. rewrite canonical_paths_length. by split. Qed.

(** C5 (amended): [zero_state] returns the Cartesian product of the eight
    domains as canonical paths, 512 of them, all distinct, in the nesting
    order with the frame outermost and the atom innermost; it writes the
    sentinel at each of them, so that [get_leaf] on each returned path then
    gives the sentinel; it changes no other key and no other part of the
    state; and a call on any state, a zeroed one too, has this same
    effect. *)
Theorem zero_state_spec (st : VMState) :
  (zero_state st).2 = canonical_paths ∧
  length (zero_state st).2 = 512 ∧
  NoDup (zero_state st).2 ∧
  (∀ f c b r cl lg rl a x1 x2 x3 x4 x5 x6 x7 x8,
     valid_frames !! f = Some x1 → valid_contexts !! c = Some x2 →
     valid_blocks !! b = Some x3 → valid_records !! r = Some x4 →
     valid_closures !! cl = Some x5 → valid_logics !! lg = Some x6 →
     valid_relations !! rl = Some x7 → valid_atoms !! a = Some x8 →
     (zero_state st).2 !! position f c b r cl lg rl a
     = Some (to_string (mkAtomPath x1 x2 x3 x4 x5 x6 x7 x8))) ∧
  (∀ path, path ∈ (zero_state st).2 →
     get_leaf (zero_state st).1 path = ((zero_state st).1, [], Some EMPTY)) ∧
  (∀ k, k ∉ (zero_state st).2 →
     leaves (zero_state st).1 !! k = leaves st !! k) ∧
  (zero_state st).1 = with_leaves st (leaves (zero_state st).1) ∧
  zero_state (zero_state st).1 = zero_state st.
Proof.
  rewrite !zero_state_eq. cbn [fst snd].
  split; [done|]. split; [apply canonical_paths_length|].
  split; [apply canonical_paths_NoDup|].
  split; [intros; by apply canonical_paths_position|].
  split; [|split; [|split]].
  - intros path Hin. unfold get_leaf.
    pose proof canonical_paths_accepted as Hall.
    rewrite Forall_forall in Hall. rewrite (Hall path Hin).
    cbn [leaves with_leaves].
    rewrite zeroed_lookup, decide_True by done. done.
  - intros k Hout. cbn [leaves with_leaves].
    by rewrite zeroed_lookup, decide_False.
  - done.
  - unfold with_leaves. cbn [leaves logic4 record16 context64 state256 stack pc].
    by rewrite zeroed_twice.
Qed.

Lemma zero_state_spec_witness :
  (zero_state initial_state).2 !! position 1 3 0 1 0 1 0 1
  = Some "State.FrameB.Canonical.Block1.Record2.Closure1.Logic2.Relation1.R" ∧
  get_leaf (zero_state initial_state).1 path_L
  = ((zero_state initial_state).1, [], Some EMPTY).
Proof.
  pose proof (zero_state_spec initial_state) as (Hpaths & _ & _ & Hpos & Hget & _).
  split.
  - exact (Hpos 1 3 0 1 0 1 0 1 "FrameB" "Canonical" "Block1" "Record2"
             "Closure1" "Logic2" "Relation1" "R" eq_refl eq_refl eq_refl
             eq_refl eq_refl eq_refl eq_refl eq_refl).
  - apply Hget. rewrite Hpaths. apply mem_elem_of. vm_compute. reflexivity.
Defined.

(** ** The tree folder *)

Section TreeFolder.

Variable float_repr : float → string.

(** Induction on a list two elements at a time. *)
Lemma list_pair_ind {A : Type} (P : list A → Prop) :
  P [] → (∀ x, P [x]) → (∀ x y l, P l → P (x :: y :: l)) → ∀ l, P l.
Proof.
  intros Hnil Hone Hstep l.
  assert (P l ∧ ∀ x, P (x :: l)) as [H _]; [|exact H].
  induction l as [|y l [IH1 IH2]]; split; auto.
Qed.

Lemma halve_length_le (l : list Value) :
  length (halve float_repr l) ≤ length l.
Proof. induction l using list_pair_ind; simpl; lia. Qed.

(** A level of two or more elements gets shorter, and never empty. *)
Lemma halve_length_lt (l : list Value) :
  1 < length l → 0 < length (halve float_repr l) < length l.
Proof.
  destruct l as [|x [|y l]]; simpl; try lia. intros _.
  pose proof (halve_length_le l). lia.
Qed.

Lemma halve_app (l1 l2 : list Value) (k : nat) :
  length l1 = 2 * k →
  halve float_repr (l1 ++ l2) = halve float_repr l1 ++ halve float_repr l2.
Proof.
  revert k. induction l1 as [|x|x y l1 IH] using list_pair_ind; intros k Hk.
  - done.
  - simpl in Hk. lia.
  - simpl in *. f_equal. apply (IH (k - 1)). lia.
Qed.

Lemma range3_two (n : nat) :
  range3 0 n 2 = (λ k, 2 * k) <$> seq 0 ((n + 1) / 2).
Proof.
  unfold range3. rewrite Nat.sub_0_r. simpl.
  apply list_fmap_ext. intros _ k _. lia.
Qed.

(** The rounds of the [for] loop up to index [2 * m]: the halving of the
    first [2 * m] elements. *)
Lemma level_rounds (current : list Value) (m : nat) :
  m ≤ (length current + 1) / 2 →
  foldl (level_step float_repr current) (Return [])
        ((λ k, 2 * k) <$> seq 0 m)
  = Return (halve float_repr (take (2 * m) current)).
Proof.
  induction m as [|m IH]; intros Hm; [done|].
  rewrite seq_S, fmap_app, foldl_app, IH by lia.
  cbn [Nat.add fmap list_fmap foldl]. unfold level_step. rewrite bind_Return.
  assert (2 * m < length current) as Hlt.
  { pose proof (Nat.div_mod_eq (length current + 1) 2).
    pose proof (Nat.mod_upper_bound (length current + 1) 2). lia. }
  destruct (lookup_lt_is_Some_2 current (2 * m) Hlt) as [x Hx].
  unfold len.
  destruct (Z.ltb_spec (Z.of_nat (2 * m) + 1) (Z.of_nat (length current))) as [Hy|Hy].
  - destruct (lookup_lt_is_Some_2 current (S (2 * m))) as [y Hy']; [lia|].
    rewrite (getitem_nat _ _ _ Hx), bind_Return.
    replace (Z.of_nat (2 * m) + 1)%Z with (Z.of_nat (S (2 * m))) by lia.
    rewrite (getitem_nat _ _ _ Hy'), bind_Return. f_equal.
    replace (2 * S m) with (S (S (2 * m))) by lia.
    rewrite (take_S_r _ _ _ Hy'), (take_S_r _ _ _ Hx), <- (assoc_L (++)).
    rewrite (halve_app _ _ m). { done. }
    rewrite length_take. lia.
  - rewrite (getitem_nat _ _ _ Hx), bind_Return. f_equal.
    rewrite (take_ge current (2 * S m)) by lia.
    rewrite <- (take_ge current (S (2 * m))) at 2 by lia.
    rewrite (take_S_r _ _ _ Hx).
    rewrite (halve_app _ _ m). { done. }
    rewrite length_take. lia.
Qed.

(** One pass of the [for] loop is one halving. *)
Lemma level_pass_halve (current : list Value) :
  level_pass float_repr current = Return (halve float_repr current).
Proof.
  unfold level_pass. rewrite range3_two, level_rounds by done.
  rewrite take_ge; [done|].
  pose proof (Nat.div_mod_eq (length current + 1) 2).
  pose proof (Nat.mod_upper_bound (length current + 1) 2). lia.
Qed.

(** The [while] loop ends within as many rounds as the list is long, with
    the one element the halvings leave. *)
Lemma while_loop_total (fuel : nat) (current : list Value) :
  0 < length current ≤ fuel →
  ∃ v, while_loop float_repr fuel current = Return [v] ∧
       folds_to float_repr current v.
Proof.
  revert current. induction fuel as [|fuel IH]; intros current Hlen; [lia|].
  destruct current as [|x [|y rest]]; [simpl in Hlen; lia | |].
  - exists x. split; [done | constructor].
  - set (l := x :: y :: rest) in *.
    assert (1 < length l) as Hl by (simpl; lia).
    destruct (halve_length_lt l Hl) as [Hpos Hlt].
    destruct (IH (halve float_repr l)) as (v & Hrun & Hfold); [lia|].
    exists v. split; [|by constructor].
    cbn [while_loop]. unfold len.
    destruct (Z.ltb_spec 1 (Z.of_nat (length l))); [|lia].
    by rewrite level_pass_halve, bind_Return.
Qed.

Lemma folds_to_unique (l : list Value) (v w : Value) :
  folds_to float_repr l v → folds_to float_repr l w → v = w.
Proof.
  intros Hv. revert w. induction Hv as [|v|l v Hl Hv IH]; intros w Hw.
  - inversion Hw; [done | simpl in *; lia].
  - inversion Hw; [done | simpl in *; lia].
  - inversion Hw; subst; [simpl in *; lia | simpl in *; lia | by apply IH].
Qed.

(** [build_tree] returns a value, whatever the sequence. *)
Lemma build_tree_returns (atoms : list Value) :
  ∃ v, build_tree float_repr atoms = Return v.
Proof.
  destruct atoms as [|x rest]; [by exists EMPTY|].
  destruct (while_loop_total (length (x :: rest)) (x :: rest))
    as (v & Hrun & _); [simpl; lia|].
  exists v. unfold build_tree, build_tree_fuel. by rewrite Hrun, bind_Return.
Qed.

(** C2: [build_tree] returns, without raising and within the rounds its
    loop is given, the value the specification's reduction leaves: the
    sentinel for the empty sequence, and otherwise the one element that
    remains when the sequence is halved again and again, pairs taken from
    the left and the unpaired last element of an odd level kept at the end.
    That value is unique, and any larger bound on the rounds gives it too. *)
Theorem build_tree_folds :
  (∀ atoms : list Value,
     ∃ v, build_tree float_repr atoms = Return v ∧
          folds_to float_repr atoms v ∧
          (∀ w, folds_to float_repr atoms w → w = v) ∧
          (∀ fuel, length atoms ≤ fuel →
                   build_tree_fuel float_repr fuel atoms = Return v)) ∧
  build_tree float_repr [] = Return EMPTY ∧
  (∀ a, build_tree float_repr [a] = Return a) ∧
  (∀ a b, build_tree float_repr [a; b]
          = Return (VStr ("(" +:+ str float_repr a +:+ " . "
                          +:+ str float_repr b +:+ ")"))).
Proof.
  split; [|by repeat split].
  intros [|x rest].
  - exists EMPTY. split; [done|]. split; [constructor|]. split; [|done].
    intros w Hw. inversion Hw; [done | simpl in *; lia].
  - set (l := x :: rest).
    destruct (while_loop_total (length l) l) as (v & Hrun & Hfold);
      [simpl; lia|].
    exists v. split; [|split; [done|split]].
    + unfold build_tree, build_tree_fuel. fold l.
      by rewrite Hrun, bind_Return.
    + intros w Hw. by apply (folds_to_unique l).
    + intros fuel Hfuel.
      destruct (while_loop_total fuel l) as (v' & Hrun' & Hfold');
        [simpl in *; lia|].
      unfold build_tree_fuel. fold l. rewrite Hrun', bind_Return.
      f_equal. by apply (folds_to_unique l).
Qed.

(** C3 (amended): three values fold to the pair of the pair of the first
    two with the third, the odd element being carried and paired last, with
    no parentheses beyond those of the two pairs; eight values fold to the
    balanced nesting of depth three. *)
Theorem build_tree_three_eight :
  (∀ a b c,
     build_tree float_repr [a; b; c]
     = Return (paired float_repr (paired float_repr a b) c)) ∧
  (∀ a b c d e f g h,
     build_tree float_repr [a; b; c; d; e; f; g; h]
     = Return (paired float_repr
                 (paired float_repr (paired float_repr a b)
                                    (paired float_repr c d))
                 (paired float_repr (paired float_repr e f)
                                    (paired float_repr g h)))).
Proof. split; reflexivity. Qed.

End TreeFolder.

(** C3, as stated, fails: the fold of three values is the pair of pairs
    itself; the claim wraps it in one more pair of parentheses. *)
Lemma build_tree_three_parens :
  build_tree repr_unused [VStr "a"; VStr "b"; VStr "c"]
  = Return (VStr "((a . b) . c)") ∧
  "(" +:+ pair repr_unused (VStr (pair repr_unused (VStr "a") (VStr "b"))) (VStr "c")
      +:+ ")" = "(((a . b) . c))" ∧
  build_tree repr_unused [VStr "a"; VStr "b"; VStr "c"]
  ≠ Return (VStr ("(" +:+ pair repr_unused
                            (VStr (pair repr_unused (VStr "a") (VStr "b")))
                            (VStr "c") +:+ ")")).
Proof. repeat split. discriminate. Qed.

(** The demonstration of [main]: eight atoms. *)
Example build_tree_demo :
  build_tree repr_unused
    [VStr "A1"; VStr "A2"; VStr "A3"; VStr "A4";
     VStr "A5"; VStr "A6"; VStr "A7"; VStr "A8"]
  = Return (VStr "(((A1 . A2) . (A3 . A4)) . ((A5 . A6) . (A7 . A8)))").
Proof. reflexivity. Qed.

(** Five integers: the fifth is carried through two levels. *)
Example build_tree_five :
  build_tree repr_unused [VInt 1; VInt 2; VInt 3; VInt (-4); VInt 5]
  = Return (VStr "(((1 . 2) . (3 . -4)) . 5)").
Proof. reflexivity. Qed.

(** ** The invariant of the state *)

(** A text the guard lets through is one of the canonical paths. *)
Lemma accepted_canonical (path : string) :
  path_rejected path = false → path ∈ canonical_paths.
Proof.
  intros (p & Hp & Hv)%path_rejected_false.
  rewrite <- (to_string_from_string _ _ Hp).
  unfold validate in Hv. rewrite !andb_true_iff, !mem_elem_of in Hv.
  destruct Hv as (((((((H1 & H2) & H3) & H4) & H5) & H6) & H7) & H8).
  unfold canonical_paths.
  apply list_elem_of_bind; exists (frame p); split; [|done].
  apply list_elem_of_bind; exists (context p); split; [|done].
  apply list_elem_of_bind; exists (block p); split; [|done].
  apply list_elem_of_bind; exists (record p); split; [|done].
  apply list_elem_of_bind; exists (closure p); split; [|done].
  apply list_elem_of_bind; exists (logic p); split; [|done].
  apply list_elem_of_bind; exists (relation p); split; [|done].
  apply list_elem_of_bind; exists (atom p); split; [|done].
  apply list_elem_of_singleton. by destruct p.
Qed.

(** The guard lets through exactly the canonical paths. *)
Lemma canonical_iff_accepted (path : string) :
  path ∈ canonical_paths ↔ path_rejected path = false.
Proof.
  split; [|apply accepted_canonical].
  pose proof canonical_paths_accepted as Hall.
  rewrite Forall_forall in Hall. apply Hall.
Qed.

Lemma zeroed_dom (keys : list string) (m : gmap string Value) :
  dom (zeroed m keys) = dom m ∪ list_to_set keys.
Proof.
  apply set_eq. intros k.
  rewrite elem_of_union, !elem_of_dom, elem_of_list_to_set, zeroed_lookup.
  destruct (decide (k ∈ keys)) as [Hin|Hout]; split.
  - by right.
  - by eexists.
  - by left.
  - by intros [?|?].
Qed.

Lemma zeroed_empty_size (keys : list string) :
  NoDup keys → size (zeroed ∅ keys) = length keys.
Proof.
  intros Hkeys. rewrite <- size_dom, zeroed_dom, dom_empty_L.
  rewrite (left_id_L ∅ (∪)). by apply size_list_to_set.
Qed.

(** A store whose keys are canonical paths holds at most 512 leaves. *)
Lemma keys_canonical_size (st : VMState) :
  keys_canonical st → size (leaves st) ≤ 512.
Proof.
  intros Hkeys. rewrite <- size_dom, <- canonical_paths_length.
  rewrite <- (size_list_to_set (C := gset string) canonical_paths)
    by apply canonical_paths_NoDup.
  apply subseteq_size. intros k Hk%elem_of_dom.
  apply elem_of_list_to_set. by apply Hkeys.
Qed.

Lemma overwritten_length (old new values : list Value) (start n : nat) :
  overwritten old new values start n → length new = length old.
Proof. by intros [? _]. Qed.

(** A bank overwritten in place keeps the sizes. *)
Ltac sized :=
  unfold banks_sized in *; cbn [logic4 record16 context64 state256
    with_logic4 with_record16 with_context64 with_state256] in *;
  repeat split; congruence.

Section Invariant.

Variable float_repr : float → string.

Lemma invariant_initial : invariant initial_state.
Proof.
  split; [apply initial_banks_sized|].
  intros k [v Hv]. simpl in Hv. by rewrite lookup_empty in Hv.
Qed.

(** Each operation returns, and keeps the invariant. *)
Lemma exec_invariant (st : VMState) (op : Op) :
  invariant st →
  ∃ st', exec float_repr st op = Return st' ∧ invariant st'.
Proof.
  intros [Hbanks Hkeys]. pose proof Hbanks as (H4 & H16 & H64 & H256).
  destruct op as [|path value|path|values|values|batch values|batch values
                  |value| |a b|atoms]; cbn [exec].
  - eexists. split; [done|]. rewrite zero_state_eq. cbn [fst].
    split; [done|]. intros k. unfold with_leaves; cbn [leaves].
    rewrite zeroed_lookup. destruct (decide (k ∈ canonical_paths)); [done|].
    apply Hkeys.
  - eexists. split; [done|]. unfold set_leaf.
    destruct (path_rejected path) eqn:Hpath; cbn [fst]; [done|].
    split; [done|]. intros k. unfold with_leaves; cbn [leaves].
    destruct (decide (k = path)) as [->|Hne].
    + intros _. by apply accepted_canonical.
    + rewrite lookup_insert_ne by done. apply Hkeys.
  - eexists. split; [done|]. unfold get_leaf.
    by destruct (path_rejected path).
  - destruct (load_to_logic4_run st values H4) as (bank & -> & Hbank).
    eexists. split; [done|]. split; [|done].
    apply overwritten_length in Hbank. sized.
  - destruct (load_to_record16_run st values H16) as (bank & -> & Hbank).
    eexists. split; [done|]. split; [|done].
    apply overwritten_length in Hbank. sized.
  - destruct (decide (0 ≤ batch < 4)%Z) as [Hin|Hout].
    + destruct (load_to_context64_run st batch values H64 Hin) as (bank & -> & Hbank).
      eexists. split; [done|]. split; [|done].
      apply overwritten_length in Hbank. sized.
    + rewrite load_to_context64_skip by done. by eexists.
  - destruct (decide (0 ≤ batch < 16)%Z) as [Hin|Hout].
    + destruct (load_to_state256_run st batch values H256 Hin) as (bank & -> & Hbank).
      eexists. split; [done|]. split; [|done].
      apply overwritten_length in Hbank. sized.
    + rewrite load_to_state256_skip by done. by eexists.
  - eexists. split; [done|]. by split.
  - eexists. split; [done|]. unfold pop_stack.
    by destruct (stack st).
  - by eexists.
  - destruct (build_tree_returns float_repr atoms) as [v ->].
    by eexists.
Qed.

Lemma reachable_invariant (st : VMState) :
  reachable float_repr st → invariant st.
Proof.
  induction 1 as [|st op st' _ IH Hexec]; [apply invariant_initial|].
  destruct (exec_invariant st op IH) as (st'' & Hrun & Hinv). congruence.
Qed.

(** C10 (amended): the state of a new VM has banks of 4, 16, 64 and 256
    registers and an empty leaf store; each of the core operations, run on
    a state whose banks have these sizes and whose keys are canonical
    paths, returns without raising and leaves such a state; so every state
    a VM goes through has banks of these sizes, holds only canonical paths
    as keys, of which there are 512, and holds at most 512 leaves. *)
Theorem invariant_preserved :
  invariant initial_state ∧
  (∀ st op, invariant st →
     ∃ st', exec float_repr st op = Return st' ∧ invariant st') ∧
  (∀ st, reachable float_repr st →
     banks_sized st ∧
     (∀ k, is_Some (leaves st !! k) → k ∈ canonical_paths) ∧
     size (leaves st) ≤ 512) ∧
  length canonical_paths = 512 ∧
  (∀ path, path ∈ canonical_paths ↔
           ∃ p, from_string path = Some p ∧ validate p = true).
Proof.
  split; [apply invariant_initial|]. split; [apply exec_invariant|].
  split; [|split; [apply canonical_paths_length|]].
  - intros st [Hbanks Hkeys]%reachable_invariant.
    split; [done|]. split; [done|]. by apply keys_canonical_size.
  - intros path. rewrite canonical_iff_accepted. apply path_rejected_false.
Qed.

End Invariant.

(** C10, as stated, fails on the count: after [zero_state] on a new VM the
    leaf store holds 512 leaves, more than 256. *)
Lemma zero_state_holds_512 :
  exec repr_unused initial_state OpZeroState
  = Return (zero_state initial_state).1 ∧
  size (leaves (zero_state initial_state).1) = 512 ∧
  ¬ size (leaves (zero_state initial_state).1) ≤ 256.
Proof.
  split; [reflexivity|].
  assert (size (leaves (zero_state initial_state).1) = 512) as Hsize.
  { rewrite zero_state_eq. cbn [fst]. unfold with_leaves; cbn [leaves].
    change (leaves initial_state) with (∅ : gmap string Value).
    rewrite zeroed_empty_size by apply canonical_paths_NoDup.
    apply canonical_paths_length. }
  rewrite Hsize. split; [reflexivity | lia].
Qed.

Lemma invariant_preserved_witness :
  ∃ st', exec repr_unused initial_state (OpLoadLogic4 [VInt 1]) = Return st' ∧
         invariant st'.
Proof.
  apply (proj1 (proj2 (invariant_preserved repr_unused))).
  apply (proj1 (invariant_preserved repr_unused)).
Defined.

(** * Further properties of the code *)

(** ** Valid paths *)

Lemma mem_free_of (x : string) (domain : list string) :
  forallb (free_of DOT) domain = true → mem x domain = true →
  free_of DOT x = true.
Proof.
  intros Hall Hx%mem_elem_of. rewrite forallb_forall in Hall.
  apply Hall. by apply list_elem_of_In.
Qed.

(** The words of the eight domains hold no dot. *)
Lemma validate_dotless (p : AtomPath) : validate p = true → dotless p = true.
Proof.
  unfold validate, dotless. rewrite !andb_true_iff.
  intros (((((((H1 & H2) & H3) & H4) & H5) & H6) & H7) & H8).
  repeat split; (eapply mem_free_of; [|eassumption]); reflexivity.
Qed.

(** X1: a path that validates is written to a text that parses back to it,
    that the guard of [set_leaf] and [get_leaf] lets through, and that is
    among the paths [zero_state] returns; and every text [zero_state]
    returns is the written form of a path that validates: the domains of
    [_init_domains] and those of [validate] agree. *)
Theorem validate_accepted (st : VMState) :
  (∀ p, validate p = true →
     from_string (to_string p) = Some p ∧
     path_rejected (to_string p) = false ∧
     to_string p ∈ (zero_state st).2) ∧
  (∀ path, path ∈ (zero_state st).2 →
     ∃ p, validate p = true ∧ path = to_string p).
Proof.
  rewrite zero_state_eq. cbn [snd]. split.
  - intros p Hv.
    assert (from_string (to_string p) = Some p) as Hp
      by by apply from_string_to_string, validate_dotless.
    assert (path_rejected (to_string p) = false) as Hok.
    { apply path_rejected_false. by exists p. }
    split; [done|]. split; [done|]. by apply accepted_canonical.
  - intros path (p & Hp & Hv)%canonical_iff_accepted%path_rejected_false.
    exists p. split; [done|]. symmetry. by apply to_string_from_string.
Qed.

Lemma validate_accepted_witness :
  from_string (to_string (mkAtomPath "FrameB" "Proposed" "Block2" "Record1"
                            "Closure2" "Logic1" "Relation2" "R"))
  = Some (mkAtomPath "FrameB" "Proposed" "Block2" "Record1"
            "Closure2" "Logic1" "Relation2" "R") ∧
  path_rejected (to_string (mkAtomPath "FrameB" "Proposed" "Block2" "Record1"
                              "Closure2" "Logic1" "Relation2" "R")) = false ∧
  to_string (mkAtomPath "FrameB" "Proposed" "Block2" "Record1"
               "Closure2" "Logic1" "Relation2" "R")
  ∈ (zero_state initial_state).2.
Proof.
  apply (proj1 (validate_accepted initial_state)). reflexivity.
Defined.

(** X2: two different paths whose segments hold no dot, valid ones among
    them, are written to different texts, so they never share a leaf. *)
Theorem to_string_distinct (p q : AtomPath) :
  dotless p = true → dotless q = true → p ≠ q → to_string p ≠ to_string q.
Proof.
  intros Hp Hq Hne Heq. apply Hne.
  apply from_string_to_string in Hp, Hq. rewrite Heq in Hp. congruence.
Qed.

Lemma to_string_distinct_witness :
  to_string foreign_path
  ≠ to_string (mkAtomPath "FrameA" "Local" "Block1" "Record1" "Closure1"
                 "Logic1" "Relation1" "L").
Proof.
  apply to_string_distinct; [reflexivity | reflexivity | discriminate].
Defined.

(** ** Reads and writes of the leaf store *)

(** X3: a write at one path changes what no other path reads: [get_leaf]
    at a different text returns and prints after the write what it did
    before, whether or not either text is a valid path. *)
Theorem set_leaf_other (st : VMState) (path other : string) (v : Value) :
  path ≠ other →
  (get_leaf (set_leaf st path v).1.1 other).2 = (get_leaf st other).2 ∧
  (get_leaf (set_leaf st path v).1.1 other).1.2 = (get_leaf st other).1.2.
Proof.
  intros Hne. unfold set_leaf, get_leaf.
  destruct (path_rejected path), (path_rejected other); cbn [fst snd]; try done.
  unfold with_leaves; cbn [leaves]. by rewrite lookup_insert_ne.
Qed.

Lemma set_leaf_other_witness :
  (get_leaf (set_leaf initial_state path_L (VInt 3)).1.1
     "State.FrameA.Local.Block1.Record1.Closure1.Logic1.Relation1.R").2
  = (get_leaf initial_state
       "State.FrameA.Local.Block1.Record1.Closure1.Logic1.Relation1.R").2 ∧
  (get_leaf (set_leaf initial_state path_L (VInt 3)).1.1
     "State.FrameA.Local.Block1.Record1.Closure1.Logic1.Relation1.R").1.2
  = (get_leaf initial_state
       "State.FrameA.Local.Block1.Record1.Closure1.Logic1.Relation1.R").1.2.
Proof. apply set_leaf_other. discriminate. Defined.

(** X4: of two writes at the same text the second wins: the state is the
    one the second write alone would leave, and the store is no larger. *)
Theorem set_leaf_twice (st : VMState) (path : string) (v w : Value) :
  (set_leaf (set_leaf st path v).1.1 path w).1.1 = (set_leaf st path w).1.1.
Proof.
  unfold set_leaf. destruct (path_rejected path); cbn [fst]; [done|].
  unfold with_leaves.
  cbn [leaves logic4 record16 context64 state256 stack pc].
  by rewrite insert_insert_eq.
Qed.

(** X5: a read cannot tell a leaf that was never written from one written
    with the empty string or with the sentinel: for a valid path with no
    entry, [get_leaf] returns the sentinel, prints nothing and creates no
    entry; after a write of the empty string it returns the sentinel again;
    and the write of the empty string leaves the very state the write of
    the sentinel leaves. *)
Theorem get_leaf_missing (st : VMState) (path : string) :
  path_rejected path = false → leaves st !! path = None →
  get_leaf st path = (st, [], Some EMPTY) ∧
  (get_leaf (set_leaf st path (VStr "")).1.1 path).2 = Some EMPTY ∧
  set_leaf st path (VStr "") = set_leaf st path EMPTY.
Proof.
  intros Hok Hnone. unfold get_leaf, set_leaf. rewrite Hok, Hnone.
  cbn [fst snd leaves with_leaves is_empty_str EMPTY].
  by rewrite lookup_insert_eq.
Qed.

Lemma get_leaf_missing_witness :
  get_leaf initial_state path_L = (initial_state, [], Some EMPTY) ∧
  (get_leaf (set_leaf initial_state path_L (VStr "")).1.1 path_L).2
  = Some EMPTY ∧
  set_leaf initial_state path_L (VStr "") = set_leaf initial_state path_L EMPTY.
Proof. apply get_leaf_missing; reflexivity. Defined.

(** X6: a write grows the store by one leaf when the text is a valid path
    with no entry yet, and leaves its size as it is otherwise (a rejected
    text, or a path already written). *)
Theorem set_leaf_size (st : VMState) (path : string) (v : Value) :
  size (leaves (set_leaf st path v).1.1)
  = if path_rejected path then size (leaves st)
    else match leaves st !! path with
         | None => S (size (leaves st))
         | Some _ => size (leaves st)
         end.
Proof.
  unfold set_leaf. destruct (path_rejected path); cbn [fst]; [done|].
  unfold with_leaves; cbn [leaves].
  destruct (leaves st !! path) as [old|] eqn:Hold.
  - rewrite <- !size_dom, dom_insert_L. f_equal.
    apply subseteq_union_1_L, singleton_subseteq_l. by eapply elem_of_dom_2.
  - by apply map_size_insert_None.
Qed.

(** The store after the sentinel is written at distinct keys: at least as
    many leaves as keys, and exactly the keys when it held no other key. *)
Lemma zeroed_size (keys : list string) (m : gmap string Value) :
  NoDup keys →
  length keys ≤ size (zeroed m keys) ∧
  ((∀ k, is_Some (m !! k) → k ∈ keys) →
     size (zeroed m keys) = length keys ∧
     ∀ k, is_Some (zeroed m keys !! k) ↔ k ∈ keys).
Proof.
  intros Hnodup.
  pose proof (size_list_to_set (C := gset string) keys Hnodup) as Hsize.
  split.
  - rewrite <- size_dom, zeroed_dom, <- Hsize.
    apply subseteq_size, union_subseteq_r.
  - intros Hkeys.
    assert (dom (zeroed m keys) = list_to_set (C := gset string) keys) as Hdom.
    { rewrite zeroed_dom. apply subseteq_union_1_L. intros k Hk%elem_of_dom.
      apply elem_of_list_to_set. by apply Hkeys. }
    split.
    + by rewrite <- size_dom, Hdom.
    + intros k. by rewrite <- elem_of_dom, Hdom, elem_of_list_to_set.
Qed.

(** X7: after [zero_state] the store holds at least the 512 canonical
    paths, and exactly those when its keys were canonical paths before, as
    they are in every state a VM goes through. *)
Theorem zero_state_size (st : VMState) :
  512 ≤ size (leaves (zero_state st).1) ∧
  (keys_canonical st →
     size (leaves (zero_state st).1) = 512 ∧
     ∀ k, is_Some (leaves (zero_state st).1 !! k) ↔ k ∈ canonical_paths).
Proof.
  rewrite zero_state_eq. cbn [fst]. unfold with_leaves; cbn [leaves].
  rewrite <- canonical_paths_length.
  apply zeroed_size, canonical_paths_NoDup.
Qed.

Lemma zero_state_size_witness :
  size (leaves (zero_state initial_state).1) = 512 ∧
  ∀ k, is_Some (leaves (zero_state initial_state).1 !! k) ↔ k ∈ canonical_paths.
Proof.
  apply (proj2 (zero_state_size initial_state)).
  intros k [v Hv]. cbn [leaves initial_state] in Hv.
  by rewrite lookup_empty in Hv.
Defined.

(** ** Register loads outside the claims' cases *)

Lemma setitem_out (l : list Value) (j : Z) (v : Value) :
  (0 ≤ j)%Z → length l ≤ Z.to_nat j → setitem l j v = RaiseIndexError.
Proof.
  intros Hj Hge. unfold setitem, len. cbv zeta.
  destruct (Z.ltb_spec j 0) as [|_]; [lia|].
  destruct (Z.ltb_spec j 0) as [|_]; [lia|].
  destruct (Z.leb_spec (Z.of_nat (length l)) j) as [_|]; [done | lia].
Qed.

Lemma store_loop_S (bank values : list Value) (start : Z) (n : nat) :
  store_loop bank values start (S n)
  = store_step values start (store_loop bank values start n) n.
Proof. unfold store_loop, range. by rewrite seq_S, foldl_app. Qed.

(** The store loop raises when it would write past the end of the bank. *)
Lemma store_loop_raises (bank values : list Value) (start : Z) (n : nat) :
  (0 ≤ start)%Z → n ≤ length values →
  0 < n → length bank < Z.to_nat start + n →
  store_loop bank values start n = RaiseIndexError.
Proof.
  intros Hs. induction n as [|n IH]; intros Hv Hn Hb; [lia|].
  rewrite store_loop_S.
  destruct (lookup_lt_is_Some_2 values n) as [v Hv']; [lia|].
  destruct (decide (0 < n ∧ length bank < Z.to_nat start + n))
    as [[Hpos Hshort]|Hfits].
  - by rewrite IH by lia.
  - assert (∃ bank', store_loop bank values start n = Return bank' ∧
                     length bank' = length bank) as (bank' & -> & Hlen).
    { destruct n as [|n']; [by exists bank|].
      rewrite store_loop_spec by lia. eexists. split; [done|].
      rewrite !length_app, !length_take, length_drop. lia. }
    unfold store_step. rewrite bind_Return.
    rewrite (getitem_nat _ _ _ Hv'), bind_Return.
    apply setitem_out; lia.
Qed.

(** The store loop returns or raises, by the room the bank has. *)
Lemma store_loop_cases (bank values : list Value) (start : Z) (n : nat) :
  (0 ≤ start)%Z → n ≤ length values →
  store_loop bank values start n = RaiseIndexError ↔
  0 < n ∧ length bank < Z.to_nat start + n.
Proof.
  intros Hs Hv. split.
  - intros Hraise. destruct n as [|n]; [discriminate Hraise|].
    split; [lia|].
    destruct (decide (length bank < Z.to_nat start + S n)); [done|].
    rewrite store_loop_spec in Hraise by lia. discriminate.
  - intros [Hn Hshort]. by apply store_loop_raises.
Qed.

Lemma bind_raises {A B : Type} (r : result A) (k : A → result B) :
  (∀ a, k a ≠ RaiseIndexError) →
  (r ≫= k) = RaiseIndexError ↔ r = RaiseIndexError.
Proof.
  intros Hk. destruct r as [a| |]; split; try done.
  intros Hbad. by apply Hk in Hbad.
Qed.

(** X8: a load raises [IndexError] exactly when it has a value to write
    and the bank is shorter than the positions it writes: fewer than
    [min(4, len(values))] registers in [logic4], [min(16, len(values))] in
    [record16], or, for a batch index in range and a non-empty [values],
    fewer than [batch * 16 + min(16, len(values))] in [context64] and
    [state256].  A load of no values never raises. *)
Theorem load_raises (st : VMState) (values : list Value) :
  (load_to_logic4 st values = RaiseIndexError ↔
     length (logic4 st) < Nat.min 4 (length values)) ∧
  (load_to_record16 st values = RaiseIndexError ↔
     length (record16 st) < Nat.min 16 (length values)) ∧
  (∀ batch, (0 ≤ batch < 4)%Z →
     load_to_context64 st batch values = RaiseIndexError ↔
     values ≠ [] ∧
     length (context64 st) < Z.to_nat batch * 16 + Nat.min 16 (length values)) ∧
  (∀ batch, (0 ≤ batch < 16)%Z →
     load_to_state256 st batch values = RaiseIndexError ↔
     values ≠ [] ∧
     length (state256 st) < Z.to_nat batch * 16 + Nat.min 16 (length values)).
Proof.
  split; [|split; [|split]].
  - unfold load_to_logic4. rewrite bind_raises by done.
    rewrite store_loop_cases by lia. change (Z.to_nat 0) with 0. lia.
  - unfold load_to_record16. rewrite bind_raises by done.
    rewrite store_loop_cases by lia. change (Z.to_nat 0) with 0. lia.
  - intros batch Hin. unfold load_to_context64.
    destruct (Z.leb_spec 0 batch), (Z.ltb_spec batch 4); try lia.
    cbn [andb]. cbv zeta. rewrite bind_raises by done.
    rewrite store_loop_cases by lia.
    replace (Z.to_nat (batch * 16)) with (Z.to_nat batch * 16) by lia.
    destruct values; simpl; split; intros [? ?]; (split; [done || lia | lia]).
  - intros batch Hin. unfold load_to_state256.
    destruct (Z.leb_spec 0 batch), (Z.ltb_spec batch 16); try lia.
    cbn [andb]. cbv zeta. rewrite bind_raises by done.
    rewrite store_loop_cases by lia.
    replace (Z.to_nat (batch * 16)) with (Z.to_nat batch * 16) by lia.
    destruct values; simpl; split; intros [? ?]; (split; [done || lia | lia]).
Qed.

(** A state whose [logic4] has lost two registers, and batch 3 of a
    [context64] of forty registers. *)
Lemma load_raises_witness :
  load_to_logic4 (with_logic4 initial_state [EMPTY; EMPTY])
    [VInt 1; VInt 2; VInt 3] = RaiseIndexError ∧
  load_to_context64 (with_context64 initial_state (replicate 40 EMPTY)) 3
    [VInt 1] = RaiseIndexError.
Proof.
  split.
  - apply (proj1 (load_raises (with_logic4 initial_state [EMPTY; EMPTY])
                    [VInt 1; VInt 2; VInt 3])).
    simpl. lia.
  - apply (proj1 (proj2 (proj2 (load_raises
              (with_context64 initial_state (replicate 40 EMPTY)) [VInt 1])))
             3%Z); [lia|].
    split; [done | simpl; lia].
Defined.

(** The store loop run again on the bank it returned changes nothing. *)
Lemma store_loop_again (bank bank' values : list Value) (start : Z) (n : nat) :
  (0 ≤ start)%Z → n ≤ length values →
  store_loop bank values start n = Return bank' →
  store_loop bank' values start n = Return bank'.
Proof.
  intros Hs Hv Hrun. destruct n as [|n]; [done|].
  destruct (decide (length bank < Z.to_nat start + S n)) as [Hshort|Hfits].
  { rewrite store_loop_raises in Hrun by lia. discriminate. }
  rewrite store_loop_spec in Hrun by lia. injection Hrun as <-.
  assert (length (take (Z.to_nat start) bank) = Z.to_nat start) as L1
    by (rewrite length_take; lia).
  assert (length (take (S n) values) = S n) as L2
    by (rewrite length_take; lia).
  rewrite store_loop_spec; [|done| |done].
  2: { rewrite !length_app, L1, L2, length_drop. lia. }
  f_equal. rewrite take_app_length' by done. f_equal. f_equal.
  rewrite (assoc_L (++)), drop_app_length'; [done|].
  rewrite length_app. lia.
Qed.

(** X9: a load that returned changes nothing when it is run again with the
    same arguments on the state it left. *)
Theorem load_idempotent (st st' : VMState) (values : list Value) :
  (load_to_logic4 st values = Return st' →
     load_to_logic4 st' values = Return st') ∧
  (load_to_record16 st values = Return st' →
     load_to_record16 st' values = Return st') ∧
  (∀ batch, load_to_context64 st batch values = Return st' →
     load_to_context64 st' batch values = Return st') ∧
  (∀ batch, load_to_state256 st batch values = Return st' →
     load_to_state256 st' batch values = Return st').
Proof.
  split; [|split; [|split]].
  - unfold load_to_logic4.
    destruct (store_loop (logic4 st) _ _ _) as [bank| |] eqn:Hrun; try done.
    rewrite bind_Return. intros [= <-]. cbn [logic4 with_logic4].
    by rewrite (store_loop_again _ _ values 0 (Nat.min 4 (length values))
                  ltac:(lia) ltac:(lia) Hrun).
  - unfold load_to_record16.
    destruct (store_loop (record16 st) _ _ _) as [bank| |] eqn:Hrun; try done.
    rewrite bind_Return. intros [= <-]. cbn [record16 with_record16].
    by rewrite (store_loop_again _ _ values 0 (Nat.min 16 (length values))
                  ltac:(lia) ltac:(lia) Hrun).
  - intros batch. unfold load_to_context64.
    destruct (Z.leb_spec 0 batch), (Z.ltb_spec batch 4); cbn [andb];
      try by intros [= <-].
    cbv zeta.
    destruct (store_loop (context64 st) _ _ _) as [bank| |] eqn:Hrun; try done.
    rewrite bind_Return. intros [= <-]. cbn [context64 with_context64].
    by rewrite (store_loop_again _ _ values (batch * 16)
                  (Nat.min 16 (length values)) ltac:(lia) ltac:(lia) Hrun).
  - intros batch. unfold load_to_state256.
    destruct (Z.leb_spec 0 batch), (Z.ltb_spec batch 16); cbn [andb];
      try by intros [= <-].
    cbv zeta.
    destruct (store_loop (state256 st) _ _ _) as [bank| |] eqn:Hrun; try done.
    rewrite bind_Return. intros [= <-]. cbn [state256 with_state256].
    by rewrite (store_loop_again _ _ values (batch * 16)
                  (Nat.min 16 (length values)) ltac:(lia) ltac:(lia) Hrun).
Qed.

Lemma load_idempotent_witness :
  load_to_logic4 (with_logic4 initial_state [VInt 1; VInt 2; EMPTY; EMPTY])
    [VInt 1; VInt 2]
  = Return (with_logic4 initial_state [VInt 1; VInt 2; EMPTY; EMPTY]).
Proof.
  apply (proj1 (load_idempotent initial_state _ [VInt 1; VInt 2])).
  reflexivity.
Defined.

(** What a position of an overwritten bank holds. *)
Lemma overwritten_lookup (old new values : list Value) (s n j : nat) :
  overwritten old new values s n →
  new !! j = if decide (s ≤ j < s + n) then values !! (j - s) else old !! j.
Proof.
  intros (_ & Hin & Hout). destruct (decide (s ≤ j < s + n)) as [Hj|Hj].
  - replace j with (s + (j - s)) at 1 by lia. apply Hin. lia.
  - apply Hout. lia.
Qed.

(** Two store loops, one after the other, inside the bank: the second
    writes over the first where they overlap. *)
Lemma store_loop_twice (bank v1 v2 : list Value) (s1 s2 : Z) (n1 n2 : nat) :
  (0 ≤ s1)%Z → (0 ≤ s2)%Z →
  Z.to_nat s1 + n1 ≤ length bank → Z.to_nat s2 + n2 ≤ length bank →
  n1 ≤ length v1 → n2 ≤ length v2 →
  ∃ bank1 bank2,
    store_loop bank v1 s1 n1 = Return bank1 ∧
    store_loop bank1 v2 s2 n2 = Return bank2 ∧
    ∀ j, bank2 !! j
         = if decide (Z.to_nat s2 ≤ j < Z.to_nat s2 + n2)
           then v2 !! (j - Z.to_nat s2)
           else if decide (Z.to_nat s1 ≤ j < Z.to_nat s1 + n1)
                then v1 !! (j - Z.to_nat s1)
                else bank !! j.
Proof.
  intros Hs1 Hs2 Hb1 Hb2 Hv1 Hv2.
  destruct (store_loop_overwritten bank v1 s1 n1) as (bank1 & R1 & O1);
    [done..|].
  destruct (store_loop_overwritten bank1 v2 s2 n2) as (bank2 & R2 & O2);
    [done| |done|].
  { by rewrite (overwritten_length _ _ _ _ _ O1). }
  exists bank1, bank2. split; [done|]. split; [done|]. intros j.
  by rewrite (overwritten_lookup _ _ _ _ _ j O2),
             (overwritten_lookup _ _ _ _ _ j O1).
Qed.

(** Store loops over ranges that do not meet can be run in either order. *)
Lemma store_loop_commute (bank v1 v2 : list Value) (s1 s2 : Z) (n1 n2 : nat) :
  (0 ≤ s1)%Z → (0 ≤ s2)%Z →
  Z.to_nat s1 + n1 ≤ length bank → Z.to_nat s2 + n2 ≤ length bank →
  n1 ≤ length v1 → n2 ≤ length v2 →
  Z.to_nat s1 + n1 ≤ Z.to_nat s2 ∨ Z.to_nat s2 + n2 ≤ Z.to_nat s1 →
  ∃ bank1 bank2 bank',
    store_loop bank v1 s1 n1 = Return bank1 ∧
    store_loop bank1 v2 s2 n2 = Return bank' ∧
    store_loop bank v2 s2 n2 = Return bank2 ∧
    store_loop bank2 v1 s1 n1 = Return bank'.
Proof.
  intros Hs1 Hs2 Hb1 Hb2 Hv1 Hv2 Hapart.
  destruct (store_loop_twice bank v1 v2 s1 s2 n1 n2)
    as (bank1 & bank12 & R1 & R12 & P12); [done..|].
  destruct (store_loop_twice bank v2 v1 s2 s1 n2 n1)
    as (bank2 & bank21 & R2 & R21 & P21); [done..|].
  exists bank1, bank2, bank12. repeat split; try done.
  rewrite R21. f_equal. apply list_eq. intros j. rewrite P12, P21.
  repeat case_decide; done || lia.
Qed.

(** X10: loads of two different batches can be run in either order: on a
    state whose banks have their sizes both orders return, and return the
    same state (a batch index out of range being a load that does
    nothing). *)
Theorem batched_loads_commute (st : VMState) (b1 b2 : Z) (v1 v2 : list Value) :
  banks_sized st → b1 ≠ b2 →
  (load_to_context64 st b1 v1 ≫= λ st', load_to_context64 st' b2 v2)
  = (load_to_context64 st b2 v2 ≫= λ st', load_to_context64 st' b1 v1) ∧
  (load_to_state256 st b1 v1 ≫= λ st', load_to_state256 st' b2 v2)
  = (load_to_state256 st b2 v2 ≫= λ st', load_to_state256 st' b1 v1).
Proof.
  intros (_ & _ & H64 & H256) Hne. split.
  - unfold load_to_context64.
    destruct (Z.leb_spec 0 b1), (Z.ltb_spec b1 4),
             (Z.leb_spec 0 b2), (Z.ltb_spec b2 4); cbn [andb]; cbv zeta;
      rewrite ?bind_Return; try done;
      try (by destruct (store_loop _ _ _ _ ≫= _)).
    destruct (store_loop_commute (context64 st) v1 v2 (b1 * 16) (b2 * 16)
                (Nat.min 16 (length v1)) (Nat.min 16 (length v2)))
      as (bank1 & bank2 & bank' & R1 & R12 & R2 & R21); [lia..|].
    rewrite R1, R2, !bind_Return. cbn [context64 with_context64].
    by rewrite R12, R21.
  - unfold load_to_state256.
    destruct (Z.leb_spec 0 b1), (Z.ltb_spec b1 16),
             (Z.leb_spec 0 b2), (Z.ltb_spec b2 16); cbn [andb]; cbv zeta;
      rewrite ?bind_Return; try done;
      try (by destruct (store_loop _ _ _ _ ≫= _)).
    destruct (store_loop_commute (state256 st) v1 v2 (b1 * 16) (b2 * 16)
                (Nat.min 16 (length v1)) (Nat.min 16 (length v2)))
      as (bank1 & bank2 & bank' & R1 & R12 & R2 & R21); [lia..|].
    rewrite R1, R2, !bind_Return. cbn [state256 with_state256].
    by rewrite R12, R21.
Qed.

Lemma batched_loads_commute_witness :
  (load_to_context64 initial_state 0 [VInt 1] ≫=
     λ st', load_to_context64 st' 3 [VInt 2; VInt 3])
  = (load_to_context64 initial_state 3 [VInt 2; VInt 3] ≫=
     λ st', load_to_context64 st' 0 [VInt 1]).
Proof.
  apply (batched_loads_commute initial_state 0 3 [VInt 1] [VInt 2; VInt 3]);
    [apply initial_banks_sized | discriminate].
Defined.

(** One chunk of sixteen stored after [k] chunks. *)
Lemma store_chunk (bank vs : list Value) (k size : nat) :
  length bank = size → length vs = size → k * 16 + 16 ≤ size →
  store_loop (take (k * 16) vs ++ drop (k * 16) bank)
    (take 16 (drop (k * 16) vs)) (Z.of_nat k * 16)
    (Nat.min 16 (length (take 16 (drop (k * 16) vs))))
  = Return (take (S k * 16) vs ++ drop (S k * 16) bank).
Proof.
  intros Hbank Hvs Hk.
  assert (length (take 16 (drop (k * 16) vs)) = 16) as Hchunk
    by (rewrite length_take, length_drop; lia).
  assert (length (take (k * 16) vs) = k * 16) as Hdone
    by (rewrite length_take; lia).
  rewrite Hchunk. change (Nat.min 16 16) with 16.
  rewrite store_loop_spec; [|lia| |lia].
  2: { rewrite length_app, Hdone, length_drop. lia. }
  replace (Z.to_nat (Z.of_nat k * 16)) with (k * 16) by lia. f_equal.
  rewrite take_app_length' by done.
  rewrite (take_ge (take 16 _)) by lia.
  rewrite (drop_app_add' _ _ (k * 16) 16) by done.
  rewrite drop_drop, (assoc_L (++)), take_take_drop.
  by replace (S k * 16) with (k * 16 + 16) by lia.
Qed.

(** X11: a bank is filled by loading it chunk after chunk: for 64 values,
    the four batches of [context64] loaded in turn with the values
    [vs[b*16:(b+1)*16]] leave [context64] equal to the 64 values; for 256
    values, the sixteen batches of [state256] leave it equal to them. *)
Theorem load_chunks_fill (st : VMState) (vs : list Value) :
  banks_sized st →
  (length vs = 64 →
     load_chunks load_to_context64 st vs 4 = Return (with_context64 st vs)) ∧
  (length vs = 256 →
     load_chunks load_to_state256 st vs 16 = Return (with_state256 st vs)).
Proof.
  intros (_ & _ & H64 & H256). split; intros Hvs.
  - assert (∀ k, k ≤ 4 →
      load_chunks load_to_context64 st vs k
      = Return (with_context64 st (take (k * 16) vs
                                   ++ drop (k * 16) (context64 st)))) as Hk.
    { induction k as [|k IH]; intros Hle; [by destruct st|].
      unfold load_chunks in *. rewrite seq_S, foldl_app, IH by lia.
      cbn [foldl Nat.add]. rewrite bind_Return. unfold load_to_context64.
      destruct (Z.leb_spec 0 (Z.of_nat k)), (Z.ltb_spec (Z.of_nat k) 4);
        try lia.
      cbn [andb context64 with_context64]. cbv zeta.
      by rewrite (store_chunk _ _ _ 64) by (done || lia). }
    rewrite Hk by done. by rewrite take_ge, drop_ge, app_nil_r by lia.
  - assert (∀ k, k ≤ 16 →
      load_chunks load_to_state256 st vs k
      = Return (with_state256 st (take (k * 16) vs
                                  ++ drop (k * 16) (state256 st)))) as Hk.
    { induction k as [|k IH]; intros Hle; [by destruct st|].
      unfold load_chunks in *. rewrite seq_S, foldl_app, IH by lia.
      cbn [foldl Nat.add]. rewrite bind_Return. unfold load_to_state256.
      destruct (Z.leb_spec 0 (Z.of_nat k)), (Z.ltb_spec (Z.of_nat k) 16);
        try lia.
      cbn [andb state256 with_state256]. cbv zeta.
      by rewrite (store_chunk _ _ _ 256) by (done || lia). }
    rewrite Hk by done. by rewrite take_ge, drop_ge, app_nil_r by lia.
Qed.

Lemma load_chunks_fill_witness :
  load_chunks load_to_context64 initial_state (VInt <$> seqZ 0 64) 4
  = Return (with_context64 initial_state (VInt <$> seqZ 0 64)).
Proof.
  apply (proj1 (load_chunks_fill initial_state (VInt <$> seqZ 0 64)
                  initial_banks_sized)).
  reflexivity.
Defined.

(** ** The stack as a sequence *)

Lemma pop_after_push (st : VMState) (x : Value) :
  pop_stack (push_stack st x) = (st, Some x).
Proof.
  destruct st as [l4 r16 c64 s256 stk lv pc0].
  unfold pop_stack, push_stack, with_stack. cbn [stack].
  destruct (stk ++ [x]) as [|v l] eqn:Heq; [by destruct stk|].
  by rewrite <- Heq, removelast_snoc, last_snoc.
Qed.

Lemma pop_n_empty (k : nat) (st : VMState) :
  stack st = [] → pop_n k st = (st, replicate k None).
Proof.
  intros Hst. induction k as [|k IH]; [done|].
  cbn [pop_n]. unfold pop_stack at 1. rewrite Hst, IH. done.
Qed.

Lemma pop_n_add (n k : nat) (st : VMState) :
  pop_n (n + k) st
  = ((pop_n k (pop_n n st).1).1, (pop_n n st).2 ++ (pop_n k (pop_n n st).1).2).
Proof.
  revert st. induction n as [|n IH]; intros st.
  - cbn [Nat.add pop_n fst snd app]. by destruct (pop_n k st).
  - cbn [Nat.add pop_n]. destruct (pop_stack st) as [st1 r].
    rewrite IH. by destruct (pop_n n st1), (pop_n k _).
Qed.

Lemma pop_n_push_all (st : VMState) (values : list Value) :
  pop_n (length values) (push_all st values) = (st, Some <$> reverse values).
Proof.
  induction values as [|x values IH] using rev_ind; [done|].
  unfold push_all in *. rewrite foldl_app, length_app, Nat.add_comm.
  cbn [foldl length Nat.add pop_n]. rewrite pop_after_push, IH.
  by rewrite reverse_snoc.
Qed.

(** X12: the stack is last in, first out: after the values are pushed in
    order, as many pops return them in reverse order and leave the state
    the pushes started from; when the stack was empty at the start, every
    further pop returns [None] and changes nothing. *)
Theorem stack_lifo (st : VMState) (values : list Value) (k : nat) :
  pop_n (length values) (push_all st values) = (st, Some <$> reverse values) ∧
  (stack st = [] →
     pop_n (length values + k) (push_all st values)
     = (st, (Some <$> reverse values) ++ replicate k None)).
Proof.
  split; [apply pop_n_push_all|].
  intros Hst. rewrite pop_n_add, pop_n_push_all. cbn [fst snd].
  by rewrite pop_n_empty.
Qed.

Lemma stack_lifo_witness :
  pop_n 4 (push_all initial_state [VStr "Relation1"; VStr "Relation2"])
  = (initial_state, [Some (VStr "Relation2"); Some (VStr "Relation1"); None; None]).
Proof.
  apply (proj2 (stack_lifo initial_state
                  [VStr "Relation1"; VStr "Relation2"] 2)).
  reflexivity.
Defined.

(** ** The shape of the fold *)

Section FoldShape.

Variable float_repr : float → string.

Lemma halve_length (l : list Value) :
  length (halve float_repr l) = (length l + 1) / 2.
Proof.
  induction l as [|x|x y l IH] using list_pair_ind; [done..|].
  cbn [halve length]. rewrite IH.
  replace (S (S (length l)) + 1) with (length l + 1 + 1 * 2) by lia.
  rewrite Nat.div_add by lia. lia.
Qed.

Lemma halving_arith (m a b : nat) :
  0 < m → a = 2 * m → 0 < b ≤ 2 * m →
  1 < a + b ∧ (a + 1) / 2 = m ∧ 0 < (b + 1) / 2 ≤ m.
Proof.
  intros Hm -> Hb. split; [lia|]. split.
  - replace (2 * m + 1) with (1 + m * 2) by lia.
    by rewrite Nat.div_add by lia.
  - pose proof (Nat.div_mod_eq (b + 1) 2).
    pose proof (Nat.mod_upper_bound (b + 1) 2). lia.
Qed.

(** What a sequence folds to, its halving folds to. *)
Lemma folds_to_halve (l : list Value) (v : Value) :
  l ≠ [] → folds_to float_repr l v → folds_to float_repr (halve float_repr l) v.
Proof.
  intros Hl Hv. inversion Hv; subst; [done | | done].
  cbn [halve]. constructor.
Qed.

(** [build_tree] returns what the sequence folds to. *)
Lemma build_tree_value (l : list Value) (v : Value) :
  folds_to float_repr l v → build_tree float_repr l = Return v.
Proof.
  intros Hv. destruct l as [|x rest].
  - inversion Hv; [done | simpl in *; lia].
  - destruct (while_loop_total float_repr (length (x :: rest)) (x :: rest))
      as (w & Hrun & Hw); [simpl; lia|].
    unfold build_tree, build_tree_fuel. rewrite Hrun, bind_Return.
    f_equal. by apply (folds_to_unique float_repr (x :: rest)).
Qed.

Lemma folds_to_exists (l : list Value) :
  ∃ v, folds_to float_repr l v.
Proof.
  destruct l as [|x rest]; [exists EMPTY; constructor|].
  destruct (while_loop_total float_repr (length (x :: rest)) (x :: rest))
    as (w & _ & Hw); [simpl; lia|]. by exists w.
Qed.

(** A block of [2 ^ k] elements followed by at most as many: the fold is
    the pair of the two folds. *)
Lemma folds_to_split (k : nat) (l1 l2 : list Value) (v1 v2 : Value) :
  length l1 = 2 ^ k → 0 < length l2 ≤ 2 ^ k →
  folds_to float_repr l1 v1 → folds_to float_repr l2 v2 →
  folds_to float_repr (l1 ++ l2) (paired float_repr v1 v2).
Proof.
  revert l1 l2. induction k as [|k IH]; intros l1 l2 H1 H2 Hv1 Hv2.
  - destruct l1 as [|a [|??]]; try done.
    destruct l2 as [|b [|??]]; try (simpl in H2; lia).
    assert (v1 = a) as -> by (apply (folds_to_unique float_repr [a]); [done|constructor]).
    assert (v2 = b) as -> by (apply (folds_to_unique float_repr [b]); [done|constructor]).
    apply folds_halve; [simpl; lia|]. constructor.
  - rewrite Nat.pow_succ_r' in H1, H2.
    assert (0 < 2 ^ k) as Hpos by (apply Nat.neq_0_lt_0, Nat.pow_nonzero; lia).
    destruct (halving_arith (2 ^ k) (length l1) (length l2) Hpos H1 H2)
      as (Hlong & Hhalf1 & Hhalf2).
    apply folds_halve; [by rewrite length_app|].
    rewrite (halve_app float_repr l1 l2 (2 ^ k)) by done.
    apply IH.
    + by rewrite halve_length.
    + by rewrite halve_length.
    + apply folds_to_halve; [|done]. intros ->. cbn in Hhalf1.
      rewrite <- Hhalf1 in Hpos. lia.
    + apply folds_to_halve; [|done]. intros ->. simpl in H2. lia.
Qed.

(** X13: the fold splits at a power of two: when the first [2 ^ k] values
    are followed by at least one and at most [2 ^ k] more, [build_tree] of
    the whole is the pair of [build_tree] of the first [2 ^ k] and
    [build_tree] of the rest. *)
Theorem build_tree_split (k : nat) (l1 l2 : list Value) :
  length l1 = 2 ^ k → 0 < length l2 ≤ 2 ^ k →
  ∃ v1 v2, build_tree float_repr l1 = Return v1 ∧
           build_tree float_repr l2 = Return v2 ∧
           build_tree float_repr (l1 ++ l2)
           = Return (VStr (pair float_repr v1 v2)).
Proof.
  intros H1 H2.
  destruct (folds_to_exists l1) as [v1 Hv1].
  destruct (folds_to_exists l2) as [v2 Hv2].
  exists v1, v2. split; [by apply build_tree_value|].
  split; [by apply build_tree_value|].
  apply build_tree_value. by apply (folds_to_split k).
Qed.

(** What starts with text folds to text. *)
Lemma folds_to_text_head (l : list Value) (v : Value) :
  folds_to float_repr l v →
  ∀ s rest, l = VStr s :: rest → ∃ s', v = VStr s'.
Proof.
  induction 1 as [|v|l v Hl Hv IH]; intros s rest Heq.
  - done.
  - injection Heq as -> _. by eexists.
  - subst l. destruct rest as [|y rest]; [simpl in Hl; lia|].
    by eapply IH.
Qed.

(** X14: [build_tree] returns text for every sequence but one: a sequence
    of a single value is returned as that value, text or not. *)
Theorem build_tree_text (atoms : list Value) (v : Value) :
  build_tree float_repr atoms = Return v →
  (∃ s, v = VStr s) ∨ atoms = [v].
Proof.
  intros Hrun. destruct atoms as [|x [|y rest]].
  - left. injection Hrun as <-. by eexists.
  - right. by injection Hrun as <-.
  - left. destruct (folds_to_exists (x :: y :: rest)) as [w Hw].
    rewrite (build_tree_value _ _ Hw) in Hrun. injection Hrun as <-.
    apply folds_to_halve in Hw; [|done].
    by eapply folds_to_text_head.
Qed.

End FoldShape.

Lemma build_tree_split_witness :
  ∃ v1 v2, build_tree repr_unused [VInt 1; VInt 2] = Return v1 ∧
           build_tree repr_unused [VInt 3] = Return v2 ∧
           build_tree repr_unused ([VInt 1; VInt 2] ++ [VInt 3])
           = Return (VStr (pair repr_unused v1 v2)).
Proof.
  apply (build_tree_split repr_unused 1); [reflexivity | simpl; lia].
Defined.

Lemma build_tree_text_witness :
  (∃ s, VInt 5 = VStr s) ∨ [VInt 5] = [VInt 5].
Proof. apply (build_tree_text repr_unused [VInt 5]). reflexivity. Defined.

(** ** What an operation leaves alone *)

Lemma Return_inj {A : Type} (a b : A) : Return a = Return b → a = b.
Proof. by intros [= ->]. Qed.

Section Frame.

Variable float_repr : float → string.

(** X15: each operation changes only its own part of the state: a bank is
    changed by its own load alone, the stack by [push_stack] and
    [pop_stack] alone, the leaf store by [zero_state] and [set_leaf] alone,
    and the program counter by nothing, so that it is 0 in every state a
    VM goes through. *)
Theorem exec_frame :
  (∀ st op st', exec float_repr st op = Return st' →
     pc st' = pc st ∧
     (writes_logic4 op = false → logic4 st' = logic4 st) ∧
     (writes_record16 op = false → record16 st' = record16 st) ∧
     (writes_context64 op = false → context64 st' = context64 st) ∧
     (writes_state256 op = false → state256 st' = state256 st) ∧
     (writes_stack op = false → stack st' = stack st) ∧
     (writes_leaves op = false → leaves st' = leaves st)) ∧
  (∀ st, reachable float_repr st → pc st = 0%Z).
Proof.
  assert (∀ st op st', exec float_repr st op = Return st' →
     pc st' = pc st ∧
     (writes_logic4 op = false → logic4 st' = logic4 st) ∧
     (writes_record16 op = false → record16 st' = record16 st) ∧
     (writes_context64 op = false → context64 st' = context64 st) ∧
     (writes_state256 op = false → state256 st' = state256 st) ∧
     (writes_stack op = false → stack st' = stack st) ∧
     (writes_leaves op = false → leaves st' = leaves st)) as Hstep.
  { intros st op st'.
    destruct op as [|path value|path|values|values|batch values|batch values
                    |value| |a b|atoms]; cbn [exec].
    - rewrite zero_state_eq. cbn [fst]. intros <-%Return_inj.
      unfold with_leaves. cbn [pc logic4 record16 context64 state256 stack].
      by repeat split.
    - intros [= <-]. unfold set_leaf.
      by destruct (path_rejected path); repeat split.
    - intros [= <-]. unfold get_leaf.
      by destruct (path_rejected path); repeat split.
    - unfold load_to_logic4. destruct (store_loop _ _ _ _); try done.
      intros [= <-]. by repeat split.
    - unfold load_to_record16. destruct (store_loop _ _ _ _); try done.
      intros [= <-]. by repeat split.
    - unfold load_to_context64.
      destruct (_ && _); [|intros [= <-]; by repeat split].
      cbv zeta. destruct (store_loop _ _ _ _); try done.
      intros [= <-]. by repeat split.
    - unfold load_to_state256.
      destruct (_ && _); [|intros [= <-]; by repeat split].
      cbv zeta. destruct (store_loop _ _ _ _); try done.
      intros [= <-]. by repeat split.
    - intros [= <-]. by repeat split.
    - intros [= <-]. unfold pop_stack. by destruct (stack st); repeat split.
    - intros [= <-]. by repeat split.
    - destruct (build_tree float_repr atoms); try done.
      intros [= <-]. by repeat split. }
  split; [done|].
  induction 1 as [|st op st' _ IH Hexec]; [done|].
  destruct (Hstep _ _ _ Hexec) as [Hpc _]. congruence.
Qed.

End Frame.

Lemma exec_frame_witness :
  pc (push_stack initial_state (VInt 1)) = pc initial_state ∧
  (writes_logic4 (OpPushStack (VInt 1)) = false →
     logic4 (push_stack initial_state (VInt 1)) = logic4 initial_state) ∧
  (writes_record16 (OpPushStack (VInt 1)) = false →
     record16 (push_stack initial_state (VInt 1)) = record16 initial_state) ∧
  (writes_context64 (OpPushStack (VInt 1)) = false →
     context64 (push_stack initial_state (VInt 1)) = context64 initial_state) ∧
  (writes_state256 (OpPushStack (VInt 1)) = false →
     state256 (push_stack initial_state (VInt 1)) = state256 initial_state) ∧
  (writes_stack (OpPushStack (VInt 1)) = false →
     stack (push_stack initial_state (VInt 1)) = stack initial_state) ∧
  (writes_leaves (OpPushStack (VInt 1)) = false →
     leaves (push_stack initial_state (VInt 1)) = leaves initial_state).
Proof.
  apply (proj1 (exec_frame repr_unused) initial_state (OpPushStack (VInt 1))).
  reflexivity.
Defined.

(** ** The length of the fold *)

Lemma string_length_app (s t : string) :
  String.length (s +:+ t) = String.length s + String.length t.
Proof. induction s as [|c s IH]; simpl; [done | by rewrite IH]. Qed.

Section FoldLength.

Variable float_repr : float → string.

Lemma pair_weight (x y : Value) :
  weight float_repr (VStr (pair float_repr x y))
  = weight float_repr x + weight float_repr y.
Proof.
  unfold weight, pair. cbn [str]. rewrite !string_length_app. simpl. lia.
Qed.

(** A halving keeps the sum of the weights. *)
Lemma halve_weight (l : list Value) :
  sum_list_with (weight float_repr) (halve float_repr l)
  = sum_list_with (weight float_repr) l.
Proof.
  induction l as [|x|x y l IH] using list_pair_ind; [done..|].
  cbn [halve sum_list_with]. rewrite pair_weight, IH. lia.
Qed.

Lemma folds_to_weight (l : list Value) (v : Value) :
  folds_to float_repr l v → l ≠ [] →
  weight float_repr v = sum_list_with (weight float_repr) l.
Proof.
  induction 1 as [|v|l v Hl Hv IH]; intros Hne; [done|simpl; lia|].
  rewrite <- halve_weight. apply IH. intros Hnil.
  pose proof (halve_length_lt float_repr l Hl) as [Hpos _].
  rewrite Hnil in Hpos. simpl in Hpos. lia.
Qed.

Lemma sum_weight (l : list Value) :
  sum_list_with (weight float_repr) l
  = sum_list_with (λ a, String.length (str float_repr a)) l + 5 * length l.
Proof. induction l as [|x l IH]; simpl; [done|]. unfold weight at 1. lia. Qed.

(** X16: the fold neither drops nor repeats a value: for a sequence that
    is not empty, the text of what [build_tree] returns is as long as the
    texts of all the values together plus five characters for each of the
    [len(atoms) - 1] pairs. *)
Theorem build_tree_length (atoms : list Value) (v : Value) :
  atoms ≠ [] → build_tree float_repr atoms = Return v →
  String.length (str float_repr v)
  = sum_list_with (λ a, String.length (str float_repr a)) atoms
    + 5 * (length atoms - 1).
Proof.
  intros Hne Hrun.
  destruct (folds_to_exists float_repr atoms) as [w Hw].
  rewrite (build_tree_value float_repr _ _ Hw) in Hrun.
  apply Return_inj in Hrun as ->.
  pose proof (folds_to_weight _ _ Hw Hne) as Hweight.
  rewrite sum_weight in Hweight. unfold weight in Hweight.
  destruct atoms; [done|]. simpl in *. lia.
Qed.

End FoldLength.

Lemma build_tree_length_witness :
  String.length (str repr_unused (VStr "((10 . -2) . abc)"))
  = sum_list_with (λ a, String.length (str repr_unused a))
      [VInt 10; VInt (-2); VStr "abc"]
    + 5 * (length [VInt 10; VInt (-2); VStr "abc"] - 1).
Proof.
  apply (build_tree_length repr_unused [VInt 10; VInt (-2); VStr "abc"]);
    [discriminate | reflexivity].
Defined.
